(** * QuizMaster: generator adapter, quiz session and history store

    A shallow embedding of [src/services/geminiService.ts],
    [src/components/QuizGame.tsx] (the [QuizGame] component and the [App]
    shell that follows it in the same file) and [src/types.ts].

    Conventions.
    - A JavaScript string is the list of its UTF-16 code units.
    - A JavaScript number is an IEEE 754 binary64 value ([spec_float] at
      precision 53, [emax] 1024).
    - [try]/[catch] is a small error monad: a computation either returns
      [Ok v] or is thrown out of with [Throw e].
    - A React event handler runs to completion against the state of the
      render that created it, and the component is rendered again before
      the next event is handled; state is threaded explicitly. *)

From Stdlib Require Import String Ascii.
From Stdlib Require Import List ZArith NArith Bool Lia.
From Stdlib Require Import Floats.SpecFloat.
Import ListNotations.

#[local] Set Warnings "-register-all".

(* ================================================================== *)
(** * Part I: the program *)

(* ------------------------------------------------------------------ *)
(** ** JavaScript strings *)

Module JsString.

Definition jsstring := list N.

(** A string literal of the source, as code units. *)
Definition lit (s : string) : jsstring :=
  map N_of_ascii (list_ascii_of_string s).

(** A literal that contains double quotes, written here with apostrophes
    in their place (none of the source's literals has an apostrophe). *)
Definition litq (s : string) : jsstring :=
  map (fun c => if N.eqb c 39 then 34%N else c) (lit s).

(** [a === b] on strings. *)
Fixpoint eqb (a b : jsstring) : bool :=
  match a, b with
  | [], [] => true
  | x :: a', y :: b' => N.eqb x y && eqb a' b'
  | _, _ => false
  end.

End JsString.
Import JsString.

(* ------------------------------------------------------------------ *)
(** ** The regular expression of [generateQuiz]

    [text.match(/\[[\s\S]*\]/)]: a literal opening bracket, any run of
    code units (the class [[\s\S]] excludes nothing), a literal closing
    bracket.  The matcher is the backtracking one of the language: start
    positions are tried from the left, and at a start position the star
    first takes everything and gives code units back one at a time until
    the closing bracket matches. *)

Module Regex.

Definition LBRACKET : N := 91.
Definition RBRACKET : N := 93.

(** [[\s\S]*\]] at the head of [s]: the longest prefix of [s] that ends
    in a closing bracket. *)
Fixpoint star_then_close (s : jsstring) : option jsstring :=
  match s with
  | [] => None
  | c :: r =>
      match star_then_close r with
      | Some m => Some (c :: m)
      | None => if N.eqb c RBRACKET then Some [c] else None
      end
  end.

(** [text.match(/\[[\s\S]*\]/)]: [Some m] is the match array whose
    element 0 is [m]; [None] is [null]. *)
Fixpoint match_array (s : jsstring) : option jsstring :=
  match s with
  | [] => None
  | c :: r =>
      if N.eqb c LBRACKET then
        match star_then_close r with
        | Some m => Some (c :: m)
        | None => match_array r
        end
      else match_array r
  end.

End Regex.

(* ------------------------------------------------------------------ *)
(** ** JSON values and [JSON.parse]

    [JSON.parse] belongs to the language runtime, not to the repository;
    it is modelled after the JSON grammar of ECMA-404.  A number keeps
    its decimal reading (sign, digits, power of ten) and is not rounded
    to binary64; nothing below inspects a parsed number. *)

Module Json.

Inductive json : Type :=
| JNull
| JBool (b : bool)
| JNum (neg : bool) (digits : N) (exp10 : Z)
| JStr (s : jsstring)
| JArr (elements : list json)
| JObj (fields : list (jsstring * json)).

(** Property read [v.k] on a parsed value: [None] is [undefined].  A key
    written twice keeps its last value. *)
Fixpoint assoc_last (k : jsstring) (fs : list (jsstring * json)) : option json :=
  match fs with
  | [] => None
  | (k', v) :: r =>
      match assoc_last k r with
      | Some w => Some w
      | None => if JsString.eqb k k' then Some v else None
      end
  end.

Definition get (k : jsstring) (v : json) : option json :=
  match v with
  | JObj fs => assoc_last k fs
  | _ => None
  end.

(** *** Tokens *)

Inductive token : Type :=
| TLBracket | TRBracket | TLBrace | TRBrace | TComma | TColon
| TString (s : jsstring)
| TNumber (neg : bool) (digits : N) (exp10 : Z)
| TTrue | TFalse | TNull.

Definition is_ws (c : N) : bool :=
  N.eqb c 32 || N.eqb c 9 || N.eqb c 10 || N.eqb c 13.

Definition is_digit (c : N) : bool := N.leb 48 c && N.leb c 57.

Definition is_alpha (c : N) : bool :=
  (N.leb 97 c && N.leb c 122) || (N.leb 65 c && N.leb c 90).

(** Code units a number or a literal name is made of. *)
Definition is_word (c : N) : bool :=
  is_digit c || is_alpha c || N.eqb c 43 || N.eqb c 45 || N.eqb c 46.

Definition punct (c : N) : option token :=
  if N.eqb c 91 then Some TLBracket
  else if N.eqb c 93 then Some TRBracket
  else if N.eqb c 123 then Some TLBrace
  else if N.eqb c 125 then Some TRBrace
  else if N.eqb c 44 then Some TComma
  else if N.eqb c 58 then Some TColon
  else None.

Definition hex_digit (c : N) : option N :=
  if is_digit c then Some (c - 48)%N
  else if N.leb 97 c && N.leb c 102 then Some (c - 87)%N
  else if N.leb 65 c && N.leb c 70 then Some (c - 55)%N
  else None.

(** The character a one-letter escape stands for. *)
Definition escape (c : N) : option N :=
  if N.eqb c 34 then Some 34%N          (* quote *)
  else if N.eqb c 92 then Some 92%N     (* backslash *)
  else if N.eqb c 47 then Some 47%N     (* slash *)
  else if N.eqb c 98 then Some 8%N      (* b *)
  else if N.eqb c 102 then Some 12%N    (* f *)
  else if N.eqb c 110 then Some 10%N    (* n *)
  else if N.eqb c 114 then Some 13%N    (* r *)
  else if N.eqb c 116 then Some 9%N     (* t *)
  else None.

(** Leading digits of [s] and what follows them. *)
Fixpoint span_digits (s : jsstring) : jsstring * jsstring :=
  match s with
  | c :: r =>
      if is_digit c then let (d, t) := span_digits r in (c :: d, t)
      else ([], s)
  | [] => ([], [])
  end.

Definition digits_value (ds : jsstring) : N :=
  fold_left (fun acc c => (10 * acc + (c - 48))%N) ds 0%N.

(** number = [-] int [frac] [exp] *)
Definition number_token (s : jsstring) : option token :=
  let (neg, s1) := match s with
                   | c :: r => if N.eqb c 45 then (true, r) else (false, s)
                   | [] => (false, s)
                   end in
  let (ip, s2) := span_digits s1 in
  let int_ok := match ip with
                | [] => false
                | [_] => true
                | c :: _ => negb (N.eqb c 48)
                end in
  let frac := match s2 with
              | c :: r =>
                  if N.eqb c 46 then
                    let (fp, t) := span_digits r in
                    match fp with [] => None | _ => Some (fp, t) end
                  else Some ([], s2)
              | [] => Some ([], s2)
              end in
  match frac with
  | None => None
  | Some (fp, s3) =>
      let ex := match s3 with
                | c :: r =>
                    if N.eqb c 101 || N.eqb c 69 then
                      let (sg, r') := match r with
                                      | d :: t =>
                                          if N.eqb d 45 then (true, t)
                                          else if N.eqb d 43 then (false, t)
                                          else (false, r)
                                      | [] => (false, r)
                                      end in
                      let (ep, t) := span_digits r' in
                      match ep, t with
                      | _ :: _, [] =>
                          let e := Z.of_N (digits_value ep) in
                          Some (if sg then (- e)%Z else e)
                      | _, _ => None
                      end
                    else None
                | [] => Some 0%Z
                end in
      match ex with
      | Some e =>
          if int_ok then
            Some (TNumber neg (digits_value (ip ++ fp))
                          (e - Z.of_nat (length fp))%Z)
          else None
      | None => None
      end
  end.

Definition word_token (s : jsstring) : option token :=
  if JsString.eqb s (lit "true") then Some TTrue
  else if JsString.eqb s (lit "false") then Some TFalse
  else if JsString.eqb s (lit "null") then Some TNull
  else number_token s.

(** *** The scanner: one step per code unit *)

Inductive lexmode : Type :=
| LIdle
| LWord (acc : jsstring)                   (* a number or a name, reversed *)
| LStr (acc : jsstring)                    (* inside a string, reversed *)
| LEsc (acc : jsstring)                    (* after a backslash *)
| LHex (acc : jsstring) (k : nat) (v : N). (* in \u, [k] digits read *)

Definition idle (c : N) : option (list token * lexmode) :=
  if is_ws c then Some ([], LIdle)
  else if N.eqb c 34 then Some ([], LStr [])
  else if is_word c then Some ([], LWord [c])
  else match punct c with
       | Some t => Some ([t], LIdle)
       | None => None
       end.

Definition lex_step (m : lexmode) (c : N) : option (list token * lexmode) :=
  match m with
  | LIdle => idle c
  | LWord acc =>
      if is_word c then Some ([], LWord (c :: acc))
      else match word_token (rev acc), idle c with
           | Some t, Some (ts, m') => Some (t :: ts, m')
           | _, _ => None
           end
  | LStr acc =>
      if N.eqb c 34 then Some ([TString (rev acc)], LIdle)
      else if N.eqb c 92 then Some ([], LEsc acc)
      else if N.ltb c 32 then None
      else Some ([], LStr (c :: acc))
  | LEsc acc =>
      if N.eqb c 117 then Some ([], LHex acc 0 0%N)
      else match escape c with
           | Some e => Some ([], LStr (e :: acc))
           | None => None
           end
  | LHex acc k v =>
      match hex_digit c with
      | Some d =>
          let v' := (16 * v + d)%N in
          if Nat.eqb k 3 then Some ([], LStr (v' :: acc))
          else Some ([], LHex acc (S k) v')
      | None => None
      end
  end.

Fixpoint lex (m : lexmode) (s : jsstring) : option (list token) :=
  match s with
  | [] =>
      match m with
      | LIdle => Some []
      | LWord acc => option_map (fun t => [t]) (word_token (rev acc))
      | _ => None
      end
  | c :: r =>
      match lex_step m c with
      | Some (ts, m') => option_map (app ts) (lex m' r)
      | None => None
      end
  end.

(** *** The parser: a stack of open containers, one step per token *)

Inductive frame : Type :=
| FArr (acc : list json)                              (* elements, reversed *)
| FObj (acc : list (jsstring * json)) (key : option jsstring).

Inductive pmode : Type :=
| PValue       (* a value must follow *)
| PArrFirst    (* just after an opening bracket: a value or the closer *)
| PObjFirst    (* just after an opening brace: a key or the closer *)
| PObjKey      (* after a comma in an object: a key *)
| PColon       (* after a key: the colon *)
| PAfter       (* after a value in a container: a comma or the closer *)
| PDone (v : json).

(** A value is complete: it is the whole text, or it joins the container
    on top of the stack. *)
Definition push_value (v : json) (stk : list frame) : option (pmode * list frame) :=
  match stk with
  | [] => Some (PDone v, [])
  | FArr acc :: stk' => Some (PAfter, FArr (v :: acc) :: stk')
  | FObj acc (Some k) :: stk' => Some (PAfter, FObj ((k, v) :: acc) None :: stk')
  | FObj _ None :: _ => None
  end.

Definition start_value (t : token) (stk : list frame) : option (pmode * list frame) :=
  match t with
  | TLBracket => Some (PArrFirst, FArr [] :: stk)
  | TLBrace => Some (PObjFirst, FObj [] None :: stk)
  | TString s => push_value (JStr s) stk
  | TNumber n d e => push_value (JNum n d e) stk
  | TTrue => push_value (JBool true) stk
  | TFalse => push_value (JBool false) stk
  | TNull => push_value JNull stk
  | _ => None
  end.

Definition close_array (stk : list frame) : option (pmode * list frame) :=
  match stk with
  | FArr acc :: stk' => push_value (JArr (rev acc)) stk'
  | _ => None
  end.

Definition close_object (stk : list frame) : option (pmode * list frame) :=
  match stk with
  | FObj acc None :: stk' => push_value (JObj (rev acc)) stk'
  | _ => None
  end.

Definition set_key (k : jsstring) (stk : list frame) : option (pmode * list frame) :=
  match stk with
  | FObj acc None :: stk' => Some (PColon, FObj acc (Some k) :: stk')
  | _ => None
  end.

Definition parse_step (st : pmode * list frame) (t : token) : option (pmode * list frame) :=
  let (m, stk) := st in
  match m with
  | PValue => start_value t stk
  | PArrFirst =>
      match t with
      | TRBracket => close_array stk
      | _ => start_value t stk
      end
  | PObjFirst =>
      match t with
      | TRBrace => close_object stk
      | TString k => set_key k stk
      | _ => None
      end
  | PObjKey =>
      match t with
      | TString k => set_key k stk
      | _ => None
      end
  | PColon =>
      match t with
      | TColon => Some (PValue, stk)
      | _ => None
      end
  | PAfter =>
      match t, stk with
      | TComma, FArr _ :: _ => Some (PValue, stk)
      | TComma, FObj _ None :: _ => Some (PObjKey, stk)
      | TRBracket, _ => close_array stk
      | TRBrace, _ => close_object stk
      | _, _ => None
      end
  | PDone _ => None
  end.

Fixpoint parse_tokens (st : pmode * list frame) (ts : list token) : option json :=
  match ts with
  | [] => match st with
          | (PDone v, _) => Some v
          | _ => None
          end
  | t :: r =>
      match parse_step st t with
      | Some st' => parse_tokens st' r
      | None => None
      end
  end.

(** [JSON.parse(text)]: [None] stands for the [SyntaxError] it throws. *)
Definition JSON_parse (text : jsstring) : option json :=
  match lex LIdle text with
  | Some ts => parse_tokens (PValue, []) ts
  | None => None
  end.

End Json.
Import Json.

(* ------------------------------------------------------------------ *)
(** ** Exceptions: [throw], [try] and [catch] *)

Module Exn.

Inductive exn : Type :=
| Error (message : jsstring)      (* [new Error(message)] *)
| SyntaxError                     (* thrown by [JSON.parse] *)
| TypeError                       (* a property read on [undefined] *)
| Rejected (reason : jsstring).   (* whatever the SDK call fails with *)

Inductive result (A : Type) : Type :=
| Ok (a : A)
| Throw (e : exn).

Arguments Ok {A} a.
Arguments Throw {A} e.

Definition bind {A B : Type} (c : result A) (k : A -> result B) : result B :=
  match c with
  | Ok a => k a
  | Throw e => Throw e
  end.

(** [try { body } catch (error) { handler }] *)
Definition try_catch {A : Type} (body : result A) (handler : exn -> result A) : result A :=
  match body with
  | Ok a => Ok a
  | Throw e => handler e
  end.

End Exn.
Import Exn.

Notation "x <- c ;; k" := (bind c (fun x => k))
  (at level 61, c at next level, right associativity).

(* ------------------------------------------------------------------ *)
(** ** [src/services/geminiService.ts] *)

Module GeminiService.

Section WithModel.

(** The SDK object [model] and the runtime's number formatting are
    outside the repository.  [generateContent] is the awaited call, which
    may reject; [text] reads the text of its response, which may throw. *)
Variable response : Type.
Variable generateContent : jsstring -> result response.
Variable text : response -> result jsstring.
Variable Number_toString : spec_float -> jsstring.

Definition quizPrompt (topic difficulty : jsstring) : jsstring :=
  litq "Generate 5 multiple choice questions based on the following content. Content: '"
  ++ topic ++ litq "'. Difficulty: " ++ difficulty
  ++ litq ". Return ONLY a raw JSON array. Format: [{ 'question': '...', 'options': ['a', 'b', 'c', 'd'], 'answer': 'correct_option_text' }]".

(** The object literal of the [catch] block. *)
Definition fallbackQuestion : json :=
  JObj [ (lit "question",
          JStr (lit "The AI could not process this PDF/Topic. Please try a shorter text or check your API Key."));
         (lit "options",
          JArr [JStr (lit "Error"); JStr (lit "Try Again");
                JStr (lit "Check Key"); JStr (lit "Refresh")]);
         (lit "answer", JStr (lit "Try Again")) ].

(** The [try] block of [generateQuiz].  The two [console.log] calls write
    to the console only ([topic.substring(0, 50)] does not throw on a
    string) and are left out. *)
Definition generateQuiz_try (topic difficulty : jsstring) : result json :=
  result_ <- generateContent (quizPrompt topic difficulty) ;;
  text_ <- text result_ ;;
  cleanJson <- match Regex.match_array text_ with
               | None => Throw (Error (lit "No JSON array found in response"))
               | Some jsonMatch0 => Ok jsonMatch0
               end ;;
  match JSON_parse cleanJson with
  | Some v => Ok v
  | None => Throw SyntaxError
  end.

Definition generateQuiz (topic difficulty : jsstring) : result json :=
  try_catch (generateQuiz_try topic difficulty)
            (fun error => Ok (JArr [fallbackQuestion])).

Definition guidePrompt (topic : jsstring) (score : spec_float) : jsstring :=
  litq "Create a short study guide for the following content: '"
  ++ topic ++ litq "'. The student scored " ++ Number_toString score
  ++ lit "/5. Give 3 key bullet points to review.".

Definition generateStudyGuide (topic : jsstring) (score : spec_float) : result jsstring :=
  try_catch
    (result_ <- generateContent (guidePrompt topic score) ;;
     text result_)
    (fun error => Ok (lit "Unable to generate study guide at this time.")).

End WithModel.

Arguments generateQuiz_try {response} generateContent text topic difficulty.
Arguments generateQuiz {response} generateContent text topic difficulty.
Arguments generateStudyGuide {response} generateContent text Number_toString topic score.

End GeminiService.

(* ------------------------------------------------------------------ *)
(** ** JavaScript numbers: binary64 *)

Module Number.

Definition number := spec_float.

Definition prec : Z := 53.
Definition emax : Z := 1024.

(** An integer as a number (exact below 2^53, which covers every array
    length). *)
Definition of_Z (z : Z) : number := binary_normalize prec emax z 0 false.
Definition of_nat (n : nat) : number := of_Z (Z.of_nat n).

Definition div (x y : number) : number := SFdiv prec emax x y.
Definition mul (x y : number) : number := SFmul prec emax x y.

(** [Math.round(x)]: the integral number closest to [x], the one closer
    to plus infinity when two are equally close; zeros, infinities and
    NaN are returned as they are, and a zero result keeps the sign of
    [x].  For finite [x = (-1)^s * m * 2^e] with [e < 0] this is
    [floor (x + 1/2) = floor ((2 * (+-m) + 2^-e) / 2^(1-e))]. *)
Definition Math_round (x : number) : number :=
  match x with
  | S754_finite s m e =>
      if (0 <=? e)%Z then x
      else binary_normalize prec emax
             ((2 * cond_Zopp s (Zpos m) + 2 ^ (- e)) / 2 ^ (1 - e))%Z 0 s
  | _ => x
  end.

End Number.
Import Number.

(* ------------------------------------------------------------------ *)
(** ** [src/types.ts] *)

Module QuizQuestion.
Record t : Type := mk {
  id : Z;
  question : jsstring;
  options : list jsstring;
  correctAnswer : jsstring;
  explanation : jsstring
}.
End QuizQuestion.

Module UserAnswer.
Record t : Type := mk {
  questionId : Z;
  questionText : jsstring;
  selectedOption : jsstring;
  correctAnswer : jsstring;
  isCorrect : bool
}.
End UserAnswer.

Module SavedQuiz.
Record t : Type := mk {
  id : jsstring;
  topic : jsstring;
  date : jsstring;
  score : number;
  totalQuestions : nat;
  questions : list QuizQuestion.t;
  answers : list UserAnswer.t
}.
End SavedQuiz.

Inductive AppState : Type := DASHBOARD | SETUP | GENERATING | QUIZ | RESULTS.

(* ------------------------------------------------------------------ *)
(** ** [src/components/QuizGame.tsx]: the [QuizGame] component

    The component state is the tuple of its [useState] cells and of the
    interval held in [timerRef].  A handler reads the cells of the render
    it was created in; the interval callback is created by the effect
    whose dependency list is [[currentIndex, timerSeconds, isAnswered]],
    so the cells [handleTimeOut] reads are those of the current state
    whenever the interval is alive. *)

Module QuizGame.

Record state : Type := mkState {
  currentIndex : nat;
  selectedOption : option jsstring;
  isAnswered : bool;
  answers : list UserAnswer.t;
  timeLeft : Z;
  streak : nat;
  timerRef : bool          (* an interval is scheduled and not cleared *)
}.

(** What a handler leaves behind: the component goes on, it has called
    [onComplete(answers)] or [onExit()], or rendering threw. *)
Inductive outcome : Type :=
| Running (st : state)
| Completed (final : list UserAnswer.t)
| Exited
| Crashed (e : exn).

Inductive event : Type :=
| ClickOption (idx : nat)    (* the button of [options[idx]] *)
| Tick                       (* the interval fires *)
| ClickNext                  (* the Next / Finish button *)
| ClickExit.                 (* the Exit Quiz button *)

Section Props.

Variable questions : list QuizQuestion.t.
Variable timerSeconds : option Z.      (* [timerSeconds?: number], in seconds *)

(** Truthiness of [timerSeconds]. *)
Definition timerOn : bool :=
  match timerSeconds with
  | Some t => negb (Z.eqb t 0)
  | None => false
  end.

(** [timerSeconds || 0] *)
Definition timerOrZero : Z :=
  match timerSeconds with
  | Some t => t
  | None => 0%Z
  end.

Definition initial : state :=
  mkState 0 None false [] timerOrZero 0 false.

(** [clearInterval(timerRef.current)] *)
Definition clearTimer (st : state) : state :=
  mkState (currentIndex st) (selectedOption st) (isAnswered st) (answers st)
          (timeLeft st) (streak st) false.

(** The effect: the cleanup of the previous run, then the body. *)
Definition effect (st : state) : state :=
  let st := clearTimer st in
  if timerOn && negb (isAnswered st) then
    mkState (currentIndex st) (selectedOption st) (isAnswered st) (answers st)
            timerOrZero (streak st) true
  else st.

(** After a handler, the component renders again and the effect runs if
    one of its dependencies changed. *)
Definition commit (old new : state) : state :=
  if Nat.eqb (currentIndex old) (currentIndex new)
     && Bool.eqb (isAnswered old) (isAnswered new)
  then new else effect new.

Definition handleOptionClick (option : jsstring) (userInitiated : bool)
    (st : state) : result state :=
  if isAnswered st then Ok st
  else
    match nth_error questions (currentIndex st) with
    | None => Throw TypeError
    | Some currentQuestion =>
        let isCorrect :=
          JsString.eqb option (QuizQuestion.correctAnswer currentQuestion) in
        let newAnswer :=
          UserAnswer.mk
            (QuizQuestion.id currentQuestion)
            (QuizQuestion.question currentQuestion)
            (if userInitiated then option else lit "Time Out")
            (QuizQuestion.correctAnswer currentQuestion)
            isCorrect in
        Ok (mkState (currentIndex st) (Some option) true
                    (answers st ++ [newAnswer])
                    (timeLeft st)
                    (if isCorrect then S (streak st) else 0)
                    false)
    end.

Definition handleTimeOut (st : state) : result state :=
  handleOptionClick (lit "__TIMEOUT__") false (clearTimer st).

Definition setTimeLeft (v : Z) (st : state) : state :=
  mkState (currentIndex st) (selectedOption st) (isAnswered st) (answers st)
          v (streak st) (timerRef st).

(** The interval callback. *)
Definition tick (st : state) : result state :=
  if (timeLeft st <=? 1)%Z then
    st' <- handleTimeOut st ;; Ok (setTimeLeft 0 st')
  else Ok (setTimeLeft (timeLeft st - 1) st).

Definition handleNext (st : state) : outcome :=
  if (Z.of_nat (currentIndex st) <? Z.of_nat (length questions) - 1)%Z then
    Running (mkState (S (currentIndex st)) None false (answers st)
                     (timeLeft st) (streak st) (timerRef st))
  else Completed (answers st).

(** Rendering reads [currentQuestion.id] and the other fields of
    [questions[currentIndex]]. *)
Definition render (st : state) : outcome :=
  match nth_error questions (currentIndex st) with
  | Some _ => Running st
  | None => Crashed TypeError
  end.

Definition rerender (old : state) (r : result state) : outcome :=
  match r with
  | Ok new => render (commit old new)
  | Throw e => Crashed e
  end.

(** One event against the rendered component.  An option button exists
    for each entry of [currentQuestion.options] and is disabled while
    [isAnswered]; the Next button is rendered only while [isAnswered];
    an interval fires only while it is scheduled. *)
Definition dispatch (ev : event) (st : state) : outcome :=
  match ev with
  | ClickOption idx =>
      match nth_error questions (currentIndex st) with
      | None => Crashed TypeError
      | Some currentQuestion =>
          match nth_error (QuizQuestion.options currentQuestion) idx with
          | None => Running st
          | Some option =>
              if isAnswered st then Running st
              else rerender st (handleOptionClick option true st)
          end
      end
  | Tick =>
      if timerRef st then rerender st (tick st) else Running st
  | ClickNext =>
      if isAnswered st then
        match handleNext st with
        | Running new => render (commit st new)
        | o => o
        end
      else Running st
  | ClickExit => Exited
  end.

(** Mounting: the first render, then the effect. *)
Definition mount : outcome :=
  match render initial with
  | Running st => Running (effect st)
  | o => o
  end.

(** A session: the events that reach the component, in order.  Once the
    component has completed, exited or crashed it is unmounted and later
    events reach nothing. *)
Fixpoint run (evs : list event) (o : outcome) : outcome :=
  match evs with
  | [] => o
  | ev :: rest =>
      match o with
      | Running st => run rest (dispatch ev st)
      | _ => o
      end
  end.

Definition session (evs : list event) : outcome := run evs mount.

End Props.

End QuizGame.

(* ------------------------------------------------------------------ *)
(** ** [src/components/QuizGame.tsx]: the [App] shell *)

Module App.

(** The [useState] cells of [App]; [isLoading] and [isDarkMode], which
    none of the handlers below reads, are left out. *)
Record state : Type := mkState {
  appState : AppState;
  questions : list QuizQuestion.t;
  userAnswers : list UserAnswer.t;
  currentTopic : jsstring;
  timerSeconds : option Z;
  errorToast : option jsstring;
  savedQuizzes : list SavedQuiz.t;
  reviewQuiz : option SavedQuiz.t
}.

(** [answers.filter(a => a.isCorrect).length] *)
Definition correctCount (answers : list UserAnswer.t) : nat :=
  length (filter UserAnswer.isCorrect answers).

(** [Math.round((correct / questions.length) * 100)] *)
Definition computeScore (answers : list UserAnswer.t)
    (questions : list QuizQuestion.t) : number :=
  Math_round (mul (div (of_nat (correctCount answers))
                       (of_nat (length questions)))
                  (of_Z 100)).

(** [now] is [Date.now().toString()] and [iso] is
    [new Date().toISOString()], as read when the handler runs. *)
Definition handleQuizComplete (now iso : jsstring)
    (answers : list UserAnswer.t) (st : state) : state :=
  let score := computeScore answers (questions st) in
  let newResult :=
    SavedQuiz.mk now (currentTopic st) iso score (length (questions st))
                 (questions st) answers in
  mkState RESULTS (questions st) answers (currentTopic st) (timerSeconds st)
          (errorToast st) (newResult :: savedQuizzes st) (reviewQuiz st).

(** [q => q.id !== id] *)
Definition keeps (id : jsstring) (q : SavedQuiz.t) : bool :=
  negb (JsString.eqb (SavedQuiz.id q) id).

Definition handleDeleteQuiz (id : jsstring) (st : state) : state :=
  mkState (appState st) (questions st) (userAnswers st) (currentTopic st)
          (timerSeconds st) (errorToast st)
          (filter (keeps id) (savedQuizzes st)) (reviewQuiz st).

Definition handleReviewQuiz (quiz : SavedQuiz.t) (st : state) : state :=
  mkState RESULTS (SavedQuiz.questions quiz) (SavedQuiz.answers quiz)
          (SavedQuiz.topic quiz) (timerSeconds st) (errorToast st)
          (savedQuizzes st) (Some quiz).

Definition handleBackToDashboard (st : state) : state :=
  mkState DASHBOARD [] [] (currentTopic st) (timerSeconds st) None
          (savedQuizzes st) None.

(** The [QuizGame] element of the QUIZ screen: it is given the
    [questions] and [timerSeconds] cells, [handleQuizComplete] as
    [onComplete] and [handleBackToDashboard] as [onExit].  [playQuiz] is
    the state of [App] after the events [evs] on that screen. *)
Definition playQuiz (now iso : jsstring) (evs : list QuizGame.event)
    (st : state) : state :=
  match QuizGame.session (questions st) (timerSeconds st) evs with
  | QuizGame.Completed final => handleQuizComplete now iso final st
  | QuizGame.Exited => handleBackToDashboard st
  | _ => st
  end.

End App.

(* ------------------------------------------------------------------ *)
(** ** [src/components/QuizGame.tsx]: what [QuizGame] renders *)

Module QuizView.

(** The five class strings of an option button. *)
Inductive style : Type :=
| Neutral      (* border-gray-200 hover:... : the initial [stateStyle] *)
| Green        (* bg-green-50 ... *)
| Red          (* bg-red-50 ... *)
| Dimmed       (* opacity-50 ... *)
| Picked.      (* border-primary-500 ... *)

(** [stateStyle] of the button of [option], as computed in the [map]
    over [currentQuestion.options]. *)
Definition stateStyle (isAnswered : bool) (selectedOption : option jsstring)
    (correctAnswer option : jsstring) : style :=
  let isSelected := match selectedOption with
                    | Some s => JsString.eqb s option
                    | None => false
                    end in
  let isCorrect := JsString.eqb option correctAnswer in
  if isAnswered then
    if isCorrect then Green
    else if isSelected && negb isCorrect then Red
    else Dimmed
  else if isSelected then Picked
  else Neutral.

(** [selectedOption === currentQuestion.correctAnswer], which colours the
    explanation card green (blue otherwise). *)
Definition explanationGreen (selectedOption : option jsstring)
    (correctAnswer : jsstring) : bool :=
  match selectedOption with
  | Some s => JsString.eqb s correctAnswer
  | None => false
  end.

Inductive label : Type := FinishQuiz | NextQuestion.

(** [currentIndex === questions.length - 1 ? "Finish Quiz" : "Next Question"] *)
Definition nextLabel (questions : list QuizQuestion.t) (st : QuizGame.state) : label :=
  if (Z.of_nat (QuizGame.currentIndex st) =? Z.of_nat (length questions) - 1)%Z
  then FinishQuiz else NextQuestion.

End QuizView.

(* ------------------------------------------------------------------ *)
(** ** [src/components/QuizGame.tsx]: the theme of [App]

    [documentDark] stands for
    [document.documentElement.classList.contains('dark')]. *)

Module Theme.

Record state : Type := mkState {
  isDarkMode : bool;
  documentDark : bool
}.

(** The initializer of the [isDarkMode] cell, in a browser. *)
Definition initial (documentDark : bool) : state :=
  mkState documentDark documentDark.

Definition toggleTheme (st : state) : state :=
  mkState (negb (isDarkMode st))
          (if documentDark st then false else true).

End Theme.

(* ------------------------------------------------------------------ *)
(** ** [src/components/QuizGame.tsx]: [handleStartQuiz]

    [App] calls [generateQuiz(config)]: one argument, a [QuizConfig]
    object, where the service declares [(topic: string, difficulty:
    string)].  Types are erased when the code runs, so the call is
    modelled with the argument it is given. *)

Inductive QuizDifficulty : Type := EASY | MEDIUM | HARD | PHD.
Inductive QuizType : Type := MCQ | TRUE_FALSE | MIXED.

Module QuizConfig.
Record t : Type := mk {
  topic : jsstring;
  content : jsstring;
  difficulty : QuizDifficulty;
  type : QuizType;
  questionCount : nat;
  timerSeconds : option Z
}.
End QuizConfig.

Module Shell.

(** What [generateQuiz] can be handed as [topic]. *)
Inductive argument : Type :=
| Str (s : jsstring)
| Obj (config : QuizConfig.t).

(** [topic.substring(0, 50)]: a [QuizConfig] object has no [substring]
    property, and calling [undefined] throws. *)
Definition substring_0_50 (topic : argument) : result jsstring :=
  match topic with
  | Str s => Ok (firstn 50 s)
  | Obj _ => Throw TypeError
  end.

(** The argument inside a template literal. *)
Definition templateText (topic : argument) : jsstring :=
  match topic with
  | Str s => s
  | Obj _ => lit "[object Object]"
  end.

(** A parameter that may be left out, inside a template literal. *)
Definition optionalText (difficulty : option jsstring) : jsstring :=
  match difficulty with
  | Some s => s
  | None => lit "undefined"
  end.

(** The cells [handleStartQuiz] writes; [questions] holds the value
    handed to [setQuestions] as it is. *)
Record cells : Type := mkCells {
  appState : AppState;
  isLoading : bool;
  errorToast : option jsstring;
  currentTopic : jsstring;
  timerSeconds : option Z;
  questions : json
}.

Section WithModel.

Variable response : Type.
Variable generateContent : jsstring -> result response.
Variable text : response -> result jsstring.
(** [error.message] of what was thrown. *)
Variable message : exn -> jsstring.

(** [generateQuiz] with the first statement of its [try] block, the
    [console.log] of [topic.substring(0, 50)], kept. *)
Definition generateQuiz_called (topic : argument) (difficulty : option jsstring)
  : result json :=
  try_catch
    (logged <- substring_0_50 topic ;;
     GeminiService.generateQuiz_try generateContent text
       (templateText topic) (optionalText difficulty))
    (fun error => Ok (JArr [GeminiService.fallbackQuestion])).

Definition handleStartQuiz (config : QuizConfig.t) (st : cells) : cells :=
  let st1 := mkCells GENERATING true None (QuizConfig.topic config)
                     (QuizConfig.timerSeconds config) (questions st) in
  let st2 :=
    match generateQuiz_called (Obj config) None with
    | Ok generatedQuestions =>
        mkCells QUIZ (isLoading st1) (errorToast st1) (currentTopic st1)
                (timerSeconds st1) generatedQuestions
    | Throw error =>
        mkCells SETUP (isLoading st1)
                (Some (match message error with
                       | [] => lit "Failed to generate quiz. Please try again."
                       | m => m
                       end))
                (currentTopic st1) (timerSeconds st1) (questions st1)
    end in
  mkCells (appState st2) false (errorToast st2) (currentTopic st2)
          (timerSeconds st2) (questions st2).

End WithModel.

Arguments generateQuiz_called {response} generateContent text topic difficulty.
Arguments handleStartQuiz {response} generateContent text message config st.

End Shell.

(* ================================================================== *)
(** * Part II: the vocabulary of the properties *)

(* ------------------------------------------------------------------ *)
(** ** The parser *)

(** The outermost open container is an array. *)
Fixpoint bottom_is_array (stk : list frame) : bool :=
  match stk with
  | [] => false
  | [FArr _] => true
  | [FObj _ _] => false
  | _ :: r => bottom_is_array r
  end.

Definition rooted (st : pmode * list frame) : Prop :=
  match st with
  | (PDone v, _) => exists vs, v = JArr vs
  | (_, stk) => bottom_is_array stk = true
  end.

(* ------------------------------------------------------------------ *)
(** ** The generator adapter *)

(** A parsed number with an integral value. *)
Definition is_integer (v : json) : bool :=
  match v with
  | JNum _ d e => (0 <=? e)%Z || (d mod 10 ^ Z.to_N (- e) =? 0)%N
  | _ => false
  end.

(** What the data model asks of one Question record, on a parsed value:
    the fields of [QuizQuestion] in [src/types.ts], an integral [id], and
    a [correctAnswer] that is the text of exactly one option. *)
Definition question_shaped (v : json) : Prop :=
  exists idv q opts ans expl,
    get (lit "id") v = Some idv /\ is_integer idv = true /\
    get (lit "question") v = Some (JStr q) /\
    get (lit "options") v = Some (JArr (map JStr opts)) /\
    get (lit "correctAnswer") v = Some (JStr ans) /\
    count_occ (list_eq_dec N.eq_dec) opts ans = 1 /\
    get (lit "explanation") v = Some (JStr expl).

Section ServiceVocabulary.

Import GeminiService.

Variable response : Type.
Variable generateContent : jsstring -> result response.
Variable text : response -> result jsstring.

(** The four ways the [try] block of [generateQuiz] is left by a throw. *)
Inductive quiz_failure (topic difficulty : jsstring) : Prop :=
| call_rejected e :
    generateContent (quizPrompt topic difficulty) = Throw e ->
    quiz_failure topic difficulty
| text_threw r e :
    generateContent (quizPrompt topic difficulty) = Ok r ->
    text r = Throw e ->
    quiz_failure topic difficulty
| no_bracket_span r t :
    generateContent (quizPrompt topic difficulty) = Ok r ->
    text r = Ok t ->
    Regex.match_array t = None ->
    quiz_failure topic difficulty
| span_unparsable r t span :
    generateContent (quizPrompt topic difficulty) = Ok r ->
    text r = Ok t ->
    Regex.match_array t = Some span ->
    JSON_parse span = None ->
    quiz_failure topic difficulty.

(** The one way it returns: the span of the response text parses. *)
Definition quiz_parsed (topic difficulty : jsstring) (qs : list json) : Prop :=
  exists r t span,
    generateContent (quizPrompt topic difficulty) = Ok r /\
    text r = Ok t /\
    Regex.match_array t = Some span /\
    JSON_parse span = Some (JArr qs).

End ServiceVocabulary.

Arguments quiz_failure {response} generateContent text topic difficulty.
Arguments quiz_parsed {response} generateContent text topic difficulty qs.
Arguments call_rejected {response generateContent text topic difficulty} e _.
Arguments text_threw {response generateContent text topic difficulty} r e _ _.
Arguments no_bracket_span {response generateContent text topic difficulty} r t _ _ _.
Arguments span_unparsable {response generateContent text topic difficulty} r t span _ _ _ _.

(** A model that answers every prompt with the same text. *)
Definition answering (t : jsstring) : jsstring -> result jsstring :=
  fun _ => Ok t.

(** A model whose call is rejected. *)
Definition unreachable : jsstring -> result jsstring :=
  fun _ => Throw (Rejected (lit "fetch failed")).

(* ------------------------------------------------------------------ *)
(** ** The quiz session *)

(** [answers_for ans qs]: the k-th answer was recorded from the k-th
    question. *)
Inductive answers_for : list UserAnswer.t -> list QuizQuestion.t -> Prop :=
| answers_for_nil qs : answers_for [] qs
| answers_for_cons a q ans qs :
    UserAnswer.questionId a = QuizQuestion.id q ->
    UserAnswer.questionText a = QuizQuestion.question q ->
    UserAnswer.correctAnswer a = QuizQuestion.correctAnswer q ->
    answers_for ans qs ->
    answers_for (a :: ans) (q :: qs).

Section SessionVocabulary.

Import QuizGame.

Variable questions : list QuizQuestion.t.

(** The answer [handleOptionClick] builds from a question. *)
Definition answerTo (q : QuizQuestion.t) (option : jsstring) (userInitiated : bool)
  : UserAnswer.t :=
  UserAnswer.mk (QuizQuestion.id q) (QuizQuestion.question q)
    (if userInitiated then option else lit "Time Out")
    (QuizQuestion.correctAnswer q)
    (JsString.eqb option (QuizQuestion.correctAnswer q)).

(** Number of questions answered so far. *)
Definition answered (st : state) : nat :=
  currentIndex st + (if isAnswered st then 1 else 0).

(** What holds of every state a session goes through. *)
Record invariant (st : state) : Prop := {
  inv_index : currentIndex st < length questions;
  inv_count : length (answers st) = answered st;
  inv_order : answers_for (answers st) questions;
  inv_timer : timerRef st = true -> isAnswered st = false
}.

(** An outcome a session over these questions can show. *)
Definition good (o : outcome) : Prop :=
  match o with
  | Running st => invariant st
  | Completed final =>
      length final = length questions /\ answers_for final questions
  | Exited => True
  | Crashed _ => False
  end.

End SessionVocabulary.

Arguments inv_index {questions} st _.
Arguments inv_count {questions} st _.
Arguments inv_order {questions} st _.
Arguments inv_timer {questions} st _ _.

(** *** Sessions on concrete questions *)

Definition q_sum : QuizQuestion.t :=
  QuizQuestion.mk 1 (lit "What is 2 + 2?") [lit "3"; lit "4"; lit "5"]
    (lit "4") (lit "Two and two make four.").

Definition q_capital : QuizQuestion.t :=
  QuizQuestion.mk 2 (lit "Capital of France?") [lit "Paris"; lit "Rome"]
    (lit "Paris") (lit "Paris is the capital.").

Definition q_planet : QuizQuestion.t :=
  QuizQuestion.mk 3 (lit "The red planet?") [lit "Venus"; lit "Mars"]
    (lit "Mars") (lit "Mars looks red.").

Definition threeQuestions : list QuizQuestion.t := [q_sum; q_capital; q_planet].

(** Ten seconds per question: the first answered right, the second left
    to time out, the third answered wrong. *)
Definition threeEvents : list QuizGame.event :=
  [QuizGame.ClickOption 1; QuizGame.ClickNext]
  ++ repeat QuizGame.Tick 10 ++ [QuizGame.ClickNext]
  ++ [QuizGame.ClickOption 0; QuizGame.ClickNext].

Definition threeAnswers : list UserAnswer.t :=
  [ UserAnswer.mk 1 (lit "What is 2 + 2?") (lit "4") (lit "4") true;
    UserAnswer.mk 2 (lit "Capital of France?") (lit "Time Out") (lit "Paris") false;
    UserAnswer.mk 3 (lit "The red planet?") (lit "Venus") (lit "Mars") false ].

(** The state in which the second question has just timed out. *)
Definition beforeTimeout : QuizGame.state :=
  QuizGame.mkState 1 None false [UserAnswer.mk 1 (lit "What is 2 + 2?") (lit "4") (lit "4") true]
    1 1 true.

Definition afterTimeout : QuizGame.state :=
  QuizGame.mkState 1 (Some (lit "__TIMEOUT__")) true
    [ UserAnswer.mk 1 (lit "What is 2 + 2?") (lit "4") (lit "4") true;
      UserAnswer.mk 2 (lit "Capital of France?") (lit "Time Out") (lit "Paris") false ]
    0 0 false.

(** A question whose correct answer is the string the timeout handler
    passes along, and one of whose options reads as the marker it
    records. *)
Definition q_sentinel : QuizQuestion.t :=
  QuizQuestion.mk 7 (lit "Which string does the timer submit?")
    [lit "__TIMEOUT__"; lit "Time Out"; lit "null"]
    (lit "__TIMEOUT__") (lit "The timer submits __TIMEOUT__.").

(* ------------------------------------------------------------------ *)
(** ** Scoring *)

(** The score the specification asks for: 100 * correct / total rounded
    to the nearest integer, a half rounded up, in exact arithmetic. *)
Definition round_half_up_percent (correct total : nat) : Z :=
  (200 * Z.of_nat correct + Z.of_nat total) / (2 * Z.of_nat total).

(** The same with a half rounded to the even neighbour. *)
Definition round_half_even_percent (correct total : nat) : Z :=
  let num := (100 * Z.of_nat correct)%Z in
  let den := Z.of_nat total in
  match (2 * (num mod den) ?= den)%Z with
  | Lt => (num / den)%Z
  | Gt => (num / den + 1)%Z
  | Eq => if Z.even (num / den) then (num / den)%Z else (num / den + 1)%Z
  end.

(** The source's formula on the two counts. *)
Definition scoreOf (correct total : nat) : number :=
  Math_round (mul (div (of_nat correct) (of_nat total)) (of_Z 100)).

(** The integer an integral number stands for. *)
Definition to_Z (x : number) : option Z :=
  match x with
  | S754_zero _ => Some 0%Z
  | S754_finite s m e =>
      if (0 <=? e)%Z then Some (cond_Zopp s (Zpos m * 2 ^ e))%Z
      else if (Zpos m mod 2 ^ (- e) =? 0)%Z
           then Some (cond_Zopp s (Zpos m / 2 ^ (- e)))%Z
           else None
  | _ => None
  end.

(** The formula is within one half of 100 * correct / total on every
    count of correct answers out of [total]. *)
Definition nearest (total : nat) : bool :=
  forallb (fun correct =>
             match to_Z (scoreOf correct total) with
             | Some z =>
                 (2 * Z.abs (Z.of_nat total * z - 100 * Z.of_nat correct)
                  <=? Z.of_nat total)%Z
             | None => false
             end)
          (seq 0 (S total)).

(** The formula and the exact rounding agree on every count of correct
    answers out of [total]. *)
Definition agrees (total : nat) : bool :=
  forallb (fun correct =>
             match SFcompare (scoreOf correct total)
                             (of_Z (round_half_up_percent correct total)) with
             | Some Eq => true
             | _ => false
             end)
          (seq 0 (S total)).

(** Forty questions, each with the options [yes] and [no] and the
    correct answer [yes]. *)
Definition fortyQuestions : list QuizQuestion.t :=
  map (fun i => QuizQuestion.mk (Z.of_nat i) (lit "Is it so?")
                  [lit "yes"; lit "no"] (lit "yes") (lit "It is so."))
      (seq 1 40).

(** The first 23 answered [yes], the other 17 answered [no]. *)
Definition fortyEvents : list QuizGame.event :=
  concat (repeat [QuizGame.ClickOption 0; QuizGame.ClickNext] 23)
  ++ concat (repeat [QuizGame.ClickOption 1; QuizGame.ClickNext] 17).

Definition quizStarted : App.state :=
  App.mkState QUIZ fortyQuestions [] (lit "Logic") None None [] None.

(* ------------------------------------------------------------------ *)
(** ** The history store *)

(** [subsequence l' l]: [l'] is [l] with some elements left out, the
    others in their order. *)
Inductive subsequence {A : Type} : list A -> list A -> Prop :=
| subsequence_nil : subsequence [] []
| subsequence_keep x l' l : subsequence l' l -> subsequence (x :: l') (x :: l)
| subsequence_drop x l' l : subsequence l' l -> subsequence l' (x :: l).

Definition savedAt (id : string) : SavedQuiz.t :=
  SavedQuiz.mk (lit id) (lit "Logic") (lit "2023-11-14T22:13:20.000Z")
    (of_Z 33) 3 threeQuestions threeAnswers.

Definition historyOfThree : App.state :=
  App.mkState DASHBOARD [] [] (lit "Logic") None None
    [savedAt "1700000000003"; savedAt "1700000000002"; savedAt "1700000000001"]
    None.

(* ------------------------------------------------------------------ *)
(** ** The steps of a session *)

Section StepVocabulary.

Import QuizGame.

Variable questions : list QuizQuestion.t.
Variable timerSeconds : option Z.

(** The state right after question [q] was answered with [option], the
    countdown showing [left]. *)
Definition answeredState (st : state) (q : QuizQuestion.t) (option : jsstring)
    (userInitiated : bool) (left : Z) : state :=
  mkState (currentIndex st) (Some option) true
          (answers st ++ [answerTo q option userInitiated]) left
          (if JsString.eqb option (QuizQuestion.correctAnswer q)
           then S (streak st) else 0)
          false.

(** The state in which the next question is shown. *)
Definition shownNext (st : state) : state :=
  if timerOn timerSeconds then
    mkState (S (currentIndex st)) None false (answers st)
            (timerOrZero timerSeconds) (streak st) true
  else
    mkState (S (currentIndex st)) None false (answers st)
            (timeLeft st) (streak st) false.

(** The state in which the first question is shown. *)
Definition shownFirst : state :=
  mkState 0 None false [] (timerOrZero timerSeconds) 0 (timerOn timerSeconds).

(** The four ways a rendered component changes state. *)
Inductive transition : state -> state -> Prop :=
| t_click st q idx o :
    isAnswered st = false ->
    nth_error questions (currentIndex st) = Some q ->
    nth_error (QuizQuestion.options q) idx = Some o ->
    transition st (answeredState st q o true (timeLeft st))
| t_timeout st q :
    timerRef st = true ->
    isAnswered st = false ->
    (timeLeft st <= 1)%Z ->
    nth_error questions (currentIndex st) = Some q ->
    transition st (answeredState st q (lit "__TIMEOUT__") false 0)
| t_countdown st :
    timerRef st = true ->
    (1 < timeLeft st)%Z ->
    transition st (setTimeLeft (timeLeft st - 1) st)
| t_advance st :
    isAnswered st = true ->
    S (currentIndex st) < length questions ->
    transition st (shownNext st).

End StepVocabulary.

(** Consecutive correct answers at the head of a list; [trailing_correct]
    counts them at its end: the streak of the glossary. *)
Fixpoint leading_correct (l : list UserAnswer.t) : nat :=
  match l with
  | a :: r => if UserAnswer.isCorrect a then S (leading_correct r) else 0
  | [] => 0
  end.

Definition trailing_correct (l : list UserAnswer.t) : nat :=
  leading_correct (rev l).

(** Where the recorded selection of an answer to [q] comes from. *)
Definition from_click (a : UserAnswer.t) (q : QuizQuestion.t) : Prop :=
  In (UserAnswer.selectedOption a) (QuizQuestion.options q) /\
  UserAnswer.isCorrect a
  = JsString.eqb (UserAnswer.selectedOption a) (QuizQuestion.correctAnswer q).

Definition from_timeout (a : UserAnswer.t) (q : QuizQuestion.t) : Prop :=
  UserAnswer.selectedOption a = lit "Time Out" /\
  UserAnswer.isCorrect a
  = JsString.eqb (lit "__TIMEOUT__") (QuizQuestion.correctAnswer q).

Section InvariantVocabulary.

Import QuizGame.

Variable questions : list QuizQuestion.t.
Variable timerSeconds : option Z.

(** What the cell [selectedOption] holds. *)
Definition selection_matches (st : state) : Prop :=
  if isAnswered st then
    exists o q prev a,
      selectedOption st = Some o /\
      nth_error questions (currentIndex st) = Some q /\
      answers st = prev ++ [a] /\
      UserAnswer.isCorrect a = JsString.eqb o (QuizQuestion.correctAnswer q)
  else selectedOption st = None.

(** Where every recorded answer comes from. *)
Definition provenance (st : state) : Prop :=
  (timerRef st = true -> timerOn timerSeconds = true) /\
  forall k a q,
    nth_error (answers st) k = Some a -> nth_error questions k = Some q ->
    from_click a q \/ (timerOn timerSeconds = true /\ from_timeout a q).

End InvariantVocabulary.

Definition is_tick (ev : QuizGame.event) : bool :=
  match ev with
  | QuizGame.Tick => true
  | _ => false
  end.

(** The answer recorded when the first option of [q] is clicked. *)
Definition firstAnswer (q : QuizQuestion.t) : UserAnswer.t :=
  answerTo q (hd [] (QuizQuestion.options q)) true.

(** Click the first option, then Next, [n] times over. *)
Definition answerAll (n : nat) : list QuizGame.event :=
  concat (repeat [QuizGame.ClickOption 0; QuizGame.ClickNext] n).

(** Sessions completed one after the other, each with the clock readings
    of its completion. *)
Definition saveAll (sessions : list (jsstring * jsstring * list UserAnswer.t))
    (st : App.state) : App.state :=
  fold_left (fun s x => App.handleQuizComplete (fst (fst x)) (snd (fst x)) (snd x) s)
            sessions st.

(** A question that came without options. *)
Definition q_blank : QuizQuestion.t :=
  QuizQuestion.mk 9 (lit "Which one?") [] (lit "None") (lit "No options were given.").

(** The second question of [threeQuestions], just shown with ten seconds. *)
Definition secondShown : QuizGame.state :=
  QuizGame.mkState 1 None false
    [UserAnswer.mk 1 (lit "What is 2 + 2?") (lit "4") (lit "4") true]
    10 1 true.

Definition sampleConfig : QuizConfig.t :=
  QuizConfig.mk (lit "Logic") (lit "Syllogisms and truth tables.") MEDIUM MCQ 5
    (Some 10%Z).

Definition quizOfThree : App.state :=
  App.mkState QUIZ threeQuestions [] (lit "Logic") (Some 10%Z) None
    [savedAt "1700000000001"] None.

(* ================================================================== *)
(** * Part III: properties *)

(* ------------------------------------------------------------------ *)
(** ** Strings *)

Lemma jsstring_eqb_eq (a b : jsstring) : JsString.eqb a b = true <-> a = b.
Proof.
  revert b; induction a as [|x a IH]; intros [|y b]; simpl;
    try (split; [discriminate | discriminate]); try tauto.
  rewrite andb_true_iff, N.eqb_eq, IH.
  split; [intros [-> ->]; reflexivity | intros E; inversion E; auto].
Qed.

Lemma jsstring_eqb_refl (a : jsstring) : JsString.eqb a a = true.
Proof. apply jsstring_eqb_eq; reflexivity. Qed.

Lemma jsstring_eqb_neq (a b : jsstring) : JsString.eqb a b = false <-> a <> b.
Proof.
  rewrite <- jsstring_eqb_eq. destruct (JsString.eqb a b); split; congruence.
Qed.

(* ------------------------------------------------------------------ *)
(** ** The bracket span *)

Section RegexFacts.

Import Regex.

Lemma star_then_close_none (s : jsstring) :
  ~ In RBRACKET s -> star_then_close s = None.
Proof.
  induction s as [|c r IH]; simpl; intros H; [reflexivity|].
  rewrite IH by tauto.
  destruct (N.eqb_spec c RBRACKET) as [->|]; [exfalso; tauto | reflexivity].
Qed.

Lemma star_then_close_last (mid suf : jsstring) :
  ~ In RBRACKET suf ->
  star_then_close (mid ++ RBRACKET :: suf) = Some (mid ++ [RBRACKET]).
Proof.
  intros H. induction mid as [|c mid IH]; simpl.
  - rewrite (star_then_close_none suf H). reflexivity.
  - rewrite IH. reflexivity.
Qed.

Lemma match_array_skip (pre s : jsstring) :
  ~ In LBRACKET pre -> match_array (pre ++ s) = match_array s.
Proof.
  induction pre as [|c pre IH]; simpl; intros H; [reflexivity|].
  destruct (N.eqb_spec c LBRACKET) as [->|]; [exfalso; tauto|].
  apply IH; tauto.
Qed.

Lemma match_array_no_close (s : jsstring) :
  ~ In RBRACKET s -> match_array s = None.
Proof.
  induction s as [|c r IH]; simpl; intros H; [reflexivity|].
  rewrite star_then_close_none by tauto.
  rewrite IH by tauto. destruct (N.eqb c LBRACKET); reflexivity.
Qed.

Lemma match_array_no_open (s : jsstring) :
  ~ In LBRACKET s -> match_array s = None.
Proof.
  intros H. rewrite <- (app_nil_r s). rewrite match_array_skip; auto.
Qed.

Lemma match_array_span (pre mid suf : jsstring) :
  ~ In LBRACKET pre -> ~ In RBRACKET suf ->
  match_array (pre ++ LBRACKET :: mid ++ RBRACKET :: suf)
  = Some (LBRACKET :: mid ++ [RBRACKET]).
Proof.
  intros Hp Hs. rewrite match_array_skip by assumption.
  simpl. rewrite star_then_close_last by assumption. reflexivity.
Qed.

(** Whatever is matched starts with an opening bracket. *)
Lemma match_array_head (s m : jsstring) :
  match_array s = Some m -> exists r, m = LBRACKET :: r.
Proof.
  induction s as [|c r IH]; simpl; [discriminate|].
  destruct (N.eqb_spec c LBRACKET) as [->|]; [|exact IH].
  destruct (star_then_close r) as [m'|]; [|exact IH].
  intros E; inversion E; eauto.
Qed.

End RegexFacts.

(* ------------------------------------------------------------------ *)
(** ** A text that opens with a bracket parses to an array or not at all *)

Section ParserFacts.

Lemma bottom_cons (f : frame) (stk : list frame) :
  stk <> [] -> bottom_is_array (f :: stk) = bottom_is_array stk.
Proof. destruct stk; [congruence|]. destruct f; reflexivity. Qed.

Lemma bottom_swap_arr (acc acc' : list json) (stk : list frame) :
  bottom_is_array (FArr acc :: stk) = true ->
  bottom_is_array (FArr acc' :: stk) = true.
Proof. destruct stk; auto. Qed.

Lemma bottom_swap_obj (acc acc' : list (jsstring * json)) (k k' : option jsstring)
    (stk : list frame) :
  bottom_is_array (FObj acc k :: stk) = true ->
  bottom_is_array (FObj acc' k' :: stk) = true.
Proof. destruct stk; auto. Qed.

Lemma push_value_rooted (v : json) (stk : list frame) (st' : pmode * list frame) :
  bottom_is_array stk = true -> push_value v stk = Some st' -> rooted st'.
Proof.
  destruct stk as [|[acc|acc [k|]] stk]; simpl push_value; intros B E;
    try discriminate B; try discriminate E; inversion E; subst; simpl.
  - exact (bottom_swap_arr acc (v :: acc) stk B).
  - exact (bottom_swap_obj acc ((k, v) :: acc) (Some k) None stk B).
Qed.

Lemma start_value_rooted (t : token) (stk : list frame) (st' : pmode * list frame) :
  bottom_is_array stk = true -> start_value t stk = Some st' -> rooted st'.
Proof.
  intros B. assert (N : stk <> []) by (destruct stk; [discriminate | congruence]).
  destruct t; simpl; intros E; try discriminate;
    try (eapply push_value_rooted; eassumption);
    inversion E; subst; simpl; rewrite <- B; destruct stk; congruence.
Qed.

Lemma close_array_rooted (stk : list frame) (st' : pmode * list frame) :
  bottom_is_array stk = true -> close_array stk = Some st' -> rooted st'.
Proof.
  destruct stk as [|[acc|acc k] stk]; simpl close_array; intros B E; try discriminate.
  destruct stk as [|f stk].
  - inversion E; subst; simpl; eauto.
  - eapply push_value_rooted; [|eassumption].
    rewrite bottom_cons in B by congruence. exact B.
Qed.

Lemma close_object_rooted (stk : list frame) (st' : pmode * list frame) :
  bottom_is_array stk = true -> close_object stk = Some st' -> rooted st'.
Proof.
  destruct stk as [|[acc|acc [k|]] stk]; simpl close_object; intros B E; try discriminate.
  destruct stk as [|f stk]; [discriminate B|].
  eapply push_value_rooted; [|eassumption].
  rewrite bottom_cons in B by congruence. exact B.
Qed.

Lemma set_key_rooted (k : jsstring) (stk : list frame) (st' : pmode * list frame) :
  bottom_is_array stk = true -> set_key k stk = Some st' -> rooted st'.
Proof.
  destruct stk as [|[acc|acc [k'|]] stk]; simpl set_key; intros B E; try discriminate.
  inversion E; subst; simpl.
  exact (bottom_swap_obj acc acc None (Some k) stk B).
Qed.

Lemma parse_step_rooted (st st' : pmode * list frame) (t : token) :
  rooted st -> parse_step st t = Some st' -> rooted st'.
Proof.
  destruct st as [m stk]. destruct m; simpl; intros R E; try discriminate.
  - eapply start_value_rooted; eassumption.
  - destruct t; try (eapply start_value_rooted; eassumption).
    eapply close_array_rooted; eassumption.
  - destruct t; try discriminate.
    + eapply close_object_rooted; eassumption.
    + eapply set_key_rooted; eassumption.
  - destruct t; try discriminate. eapply set_key_rooted; eassumption.
  - destruct t; try discriminate. inversion E; subst. exact R.
  - destruct t; try discriminate.
    + eapply close_array_rooted; eassumption.
    + eapply close_object_rooted; eassumption.
    + destruct stk as [|[acc|acc [k|]] stk]; try discriminate;
        inversion E; subst; exact R.
Qed.

Lemma parse_tokens_rooted (ts : list token) (st : pmode * list frame) (v : json) :
  rooted st -> parse_tokens st ts = Some v -> exists vs, v = JArr vs.
Proof.
  revert st; induction ts as [|t ts IH]; simpl; intros st R E.
  - destruct st as [[] stk]; try discriminate. inversion E; subst. exact R.
  - destruct (parse_step st t) as [st'|] eqn:S; [|discriminate].
    eapply IH; [|eassumption]. eapply parse_step_rooted; eassumption.
Qed.

Lemma JSON_parse_bracket (r : jsstring) (v : json) :
  JSON_parse (Regex.LBRACKET :: r) = Some v -> exists vs, v = JArr vs.
Proof.
  unfold JSON_parse. simpl lex.
  destruct (lex LIdle r) as [ts|]; simpl; [|discriminate].
  apply parse_tokens_rooted. reflexivity.
Qed.

End ParserFacts.

(* ------------------------------------------------------------------ *)
(** ** The generator adapter *)

Section ServiceFacts.

Import GeminiService.

Variable response : Type.
Variable generateContent : jsstring -> result response.
Variable text : response -> result jsstring.
Variable Number_toString : spec_float -> jsstring.

Local Abbreviation quiz_failure := (quiz_failure generateContent text).
Local Abbreviation quiz_parsed := (quiz_parsed generateContent text).

Lemma generateQuiz_on_failure (topic difficulty : jsstring) :
  quiz_failure topic difficulty ->
  generateQuiz generateContent text topic difficulty = Ok (JArr [fallbackQuestion]).
Proof.
  unfold generateQuiz, generateQuiz_try.
  intros [e H | r e H1 H2 | r t H1 H2 H3 | r t span H1 H2 H3 H4];
    rewrite ?H, ?H1; simpl; rewrite ?H2; simpl; rewrite ?H3; simpl;
    rewrite ?H4; reflexivity.
Qed.

Lemma generateQuiz_cases (topic difficulty : jsstring) :
  (quiz_failure topic difficulty /\
   generateQuiz generateContent text topic difficulty = Ok (JArr [fallbackQuestion]))
  \/ (exists qs, quiz_parsed topic difficulty qs /\
      generateQuiz generateContent text topic difficulty = Ok (JArr qs)).
Proof.
  destruct (generateContent (quizPrompt topic difficulty)) as [r|e] eqn:H1.
  2:{ left. assert (F : quiz_failure topic difficulty) by (eapply call_rejected; eauto).
      split; [exact F | apply generateQuiz_on_failure; exact F]. }
  destruct (text r) as [t|e] eqn:H2.
  2:{ left. assert (F : quiz_failure topic difficulty) by (eapply text_threw; eauto).
      split; [exact F | apply generateQuiz_on_failure; exact F]. }
  destruct (Regex.match_array t) as [span|] eqn:H3.
  2:{ left. assert (F : quiz_failure topic difficulty) by (eapply no_bracket_span; eauto).
      split; [exact F | apply generateQuiz_on_failure; exact F]. }
  destruct (JSON_parse span) as [v|] eqn:H4.
  2:{ left. assert (F : quiz_failure topic difficulty) by (eapply span_unparsable; eauto).
      split; [exact F | apply generateQuiz_on_failure; exact F]. }
  right. destruct (match_array_head _ _ H3) as [rest ->].
  destruct (JSON_parse_bracket _ _ H4) as [qs ->].
  exists qs. split.
  - exists r, t, (Regex.LBRACKET :: rest). auto.
  - unfold generateQuiz, generateQuiz_try. rewrite H1; simpl.
    rewrite H2; simpl. rewrite H3; simpl. rewrite H4. reflexivity.
Qed.


(** C9, as the code has it.  The extraction step takes the text from the
    first opening bracket to the last closing bracket.  A bracketed text
    is extracted whole when no opening bracket stands before it and no
    closing bracket after it, and [generateQuiz] then returns what it
    parses to.  A text that lacks a bracket of either kind has no match,
    and [generateQuiz] then returns its fallback instead of throwing. *)
Theorem extraction_first_to_last_bracket :
  (forall pre mid suf : jsstring,
      ~ In Regex.LBRACKET pre -> ~ In Regex.RBRACKET suf ->
      Regex.match_array (pre ++ Regex.LBRACKET :: mid ++ Regex.RBRACKET :: suf)
      = Some (Regex.LBRACKET :: mid ++ [Regex.RBRACKET]))
  /\ (forall (topic difficulty : jsstring) r (pre mid suf : jsstring) v,
         ~ In Regex.LBRACKET pre -> ~ In Regex.RBRACKET suf ->
         JSON_parse (Regex.LBRACKET :: mid ++ [Regex.RBRACKET]) = Some v ->
         generateContent (quizPrompt topic difficulty) = Ok r ->
         text r = Ok (pre ++ Regex.LBRACKET :: mid ++ Regex.RBRACKET :: suf) ->
         generateQuiz generateContent text topic difficulty = Ok v)
  /\ (forall t : jsstring,
         ~ In Regex.LBRACKET t \/ ~ In Regex.RBRACKET t ->
         Regex.match_array t = None)
  /\ (forall (topic difficulty : jsstring) r t,
         generateContent (quizPrompt topic difficulty) = Ok r ->
         text r = Ok t ->
         Regex.match_array t = None ->
         generateQuiz generateContent text topic difficulty
         = Ok (JArr [fallbackQuestion])).
Proof.
  split; [|split; [|split]].
  - intros pre mid suf Hp Hs. apply match_array_span; assumption.
  - intros topic difficulty r pre mid suf v Hp Hs P H1 H2.
    unfold generateQuiz, generateQuiz_try. rewrite H1; simpl. rewrite H2; simpl.
    rewrite match_array_span by assumption. simpl. rewrite P. reflexivity.
  - intros t [H|H]; [apply match_array_no_open | apply match_array_no_close];
      exact H.
  - intros topic difficulty r t H1 H2 H3.
    apply generateQuiz_on_failure. eapply no_bracket_span; eassumption.
Qed.

(** C10.  [generateStudyGuide] never throws: it returns the text of the
    response, or the fixed sentence when the call or the reading of its
    text fails. *)
Theorem generateStudyGuide_text_or_static (topic : jsstring) (score : spec_float) :
  exists out,
    generateStudyGuide generateContent text Number_toString topic score = Ok out /\
    ((exists r,
         generateContent (guidePrompt Number_toString topic score) = Ok r /\
         text r = Ok out)
     \/ (out = lit "Unable to generate study guide at this time." /\
         ((exists e, generateContent (guidePrompt Number_toString topic score) = Throw e)
          \/ (exists r e,
                 generateContent (guidePrompt Number_toString topic score) = Ok r /\
                 text r = Throw e)))).
Proof.
  unfold generateStudyGuide.
  destruct (generateContent (guidePrompt Number_toString topic score)) as [r|e] eqn:H1;
    simpl.
  - destruct (text r) as [t|e] eqn:H2; simpl.
    + exists t. split; [reflexivity|]. left. exists r. auto.
    + eexists. split; [reflexivity|]. right. split; [reflexivity|].
      right. exists r, e. auto.
  - eexists. split; [reflexivity|]. right. split; [reflexivity|].
    left. exists e. reflexivity.
Qed.

End ServiceFacts.



(** C2 at a failing input: the call is rejected, the single record
    returned has the fields [question], [options] and [answer] and none
    of [id], [correctAnswer] and [explanation]; a response in the format
    the prompt asks for parses to records of the same three fields. *)
Theorem generateQuiz_records_lack_fields :
  GeminiService.generateQuiz unreachable (fun t : jsstring => Ok t)
    (lit "Photosynthesis") (lit "Easy")
  = Ok (JArr [GeminiService.fallbackQuestion])
  /\ get (lit "id") GeminiService.fallbackQuestion = None
  /\ get (lit "correctAnswer") GeminiService.fallbackQuestion = None
  /\ get (lit "explanation") GeminiService.fallbackQuestion = None
  /\ get (lit "answer") GeminiService.fallbackQuestion = Some (JStr (lit "Try Again"))
  /\ ~ question_shaped GeminiService.fallbackQuestion
  /\ (exists q,
         GeminiService.generateQuiz
           (answering (litq "[{ 'question': 'Q', 'options': ['a', 'b'], 'answer': 'a' }]"))
           (fun t => Ok t) (lit "Photosynthesis") (lit "Easy")
         = Ok (JArr [q])
         /\ get (lit "answer") q = Some (JStr (lit "a"))
         /\ ~ question_shaped q).
Proof.
  repeat split; try reflexivity.
  - intros (idv & q & opts & ans & expl & H & _). discriminate H.
  - eexists. split; [vm_compute; reflexivity|]. split; [reflexivity|].
    intros (idv & q & opts & ans & expl & H & _). discriminate H.
Qed.

(** C9 fails as stated: a valid array after a prefix that has a bracket
    of its own is not what the extraction yields. *)
Lemma extraction_bracket_in_prefix :
  ~ (forall (pre arr suf : jsstring) (vs : list json),
        JSON_parse arr = Some (JArr vs) ->
        Regex.match_array (pre ++ arr ++ suf) = Some arr).
Proof.
  intros H.
  specialize (H (lit "Here are [5] questions: ") (litq "['a']") (lit " Enjoy :]")
                [JStr (lit "a")] eq_refl).
  vm_compute in H. discriminate H.
Qed.

(** A fenced response: the fences are dropped and the array is returned;
    a response without brackets has no match. *)
Lemma extraction_first_to_last_bracket_witness :
  GeminiService.generateQuiz
    (answering (lit "```json" ++ Regex.LBRACKET :: lit "1, 2" ++ Regex.RBRACKET :: lit "```"))
    (fun t : jsstring => Ok t) (lit "Photosynthesis") (lit "Easy")
  = Ok (JArr [JNum false 1 0; JNum false 2 0])
  /\ Regex.match_array (lit "I cannot help with that.") = None.
Proof.
  pose proof (extraction_first_to_last_bracket jsstring
                (answering (lit "```json" ++ Regex.LBRACKET :: lit "1, 2"
                              ++ Regex.RBRACKET :: lit "```"))
                (fun t : jsstring => Ok t))
    as (_ & Hquiz & Hnone & _).
  split.
  - eapply (Hquiz (lit "Photosynthesis") (lit "Easy") _ (lit "```json") (lit "1, 2")
              (lit "```")); try reflexivity; vm_compute; intuition discriminate.
  - apply Hnone. left. vm_compute. intuition discriminate.
Defined.

(* ------------------------------------------------------------------ *)
(** ** The quiz session *)

Lemma answers_for_snoc (ans : list UserAnswer.t) (qs : list QuizQuestion.t)
    (a : UserAnswer.t) (q : QuizQuestion.t) :
  answers_for ans qs ->
  nth_error qs (length ans) = Some q ->
  UserAnswer.questionId a = QuizQuestion.id q ->
  UserAnswer.questionText a = QuizQuestion.question q ->
  UserAnswer.correctAnswer a = QuizQuestion.correctAnswer q ->
  answers_for (ans ++ [a]) qs.
Proof.
  intros H. induction H as [qs | a0 q0 ans qs H1 H2 H3 H IH]; simpl; intros N E1 E2 E3.
  - destruct qs as [|q1 qs]; [discriminate|]. simpl in N. inversion N; subst.
    constructor; auto. constructor.
  - constructor; auto.
Qed.

Lemma answers_for_nth (ans : list UserAnswer.t) (qs : list QuizQuestion.t) :
  answers_for ans qs ->
  forall i a q, nth_error ans i = Some a -> nth_error qs i = Some q ->
    UserAnswer.questionId a = QuizQuestion.id q.
Proof.
  induction 1 as [qs | a0 q0 ans qs H1 H2 H3 H IH]; intros [|i] a q Ha Hq;
    simpl in *; try discriminate.
  - inversion Ha; inversion Hq; subst; assumption.
  - eapply IH; eassumption.
Qed.

Section SessionFacts.

Import QuizGame.

Variable questions : list QuizQuestion.t.
Variable timerSeconds : option Z.

Local Abbreviation handleOptionClick := (QuizGame.handleOptionClick questions).
Local Abbreviation handleTimeOut := (QuizGame.handleTimeOut questions).
Local Abbreviation handleNext := (QuizGame.handleNext questions).
Local Abbreviation tick := (QuizGame.tick questions).
Local Abbreviation render := (QuizGame.render questions).
Local Abbreviation commit := (QuizGame.commit timerSeconds).
Local Abbreviation effect := (QuizGame.effect timerSeconds).
Local Abbreviation dispatch := (QuizGame.dispatch questions timerSeconds).
Local Abbreviation run := (QuizGame.run questions timerSeconds).
Local Abbreviation session := (QuizGame.session questions timerSeconds).
Local Abbreviation mount := (QuizGame.mount questions timerSeconds).
Local Abbreviation invariant := (invariant questions).
Local Abbreviation good := (good questions).

Lemma handleOptionClick_unanswered (option : jsstring) (userInitiated : bool)
    (st : state) (q : QuizQuestion.t) :
  isAnswered st = false ->
  nth_error questions (currentIndex st) = Some q ->
  handleOptionClick option userInitiated st
  = Ok (mkState (currentIndex st) (Some option) true
                (answers st ++ [answerTo q option userInitiated])
                (timeLeft st)
                (if JsString.eqb option (QuizQuestion.correctAnswer q)
                 then S (streak st) else 0)
                false).
Proof.
  intros A Q. unfold QuizGame.handleOptionClick. rewrite A, Q. reflexivity.
Qed.

Lemma handleOptionClick_answered (option : jsstring) (userInitiated : bool)
    (st : state) :
  isAnswered st = true -> handleOptionClick option userInitiated st = Ok st.
Proof.
  intros A. unfold QuizGame.handleOptionClick. rewrite A. reflexivity.
Qed.

Lemma handleOptionClick_inversion (option : jsstring) (userInitiated : bool)
    (st st' : state) :
  isAnswered st = false ->
  handleOptionClick option userInitiated st = Ok st' ->
  exists q, nth_error questions (currentIndex st) = Some q /\
    st' = mkState (currentIndex st) (Some option) true
                  (answers st ++ [answerTo q option userInitiated])
                  (timeLeft st)
                  (if JsString.eqb option (QuizQuestion.correctAnswer q)
                   then S (streak st) else 0)
                  false.
Proof.
  intros A E. destruct (nth_error questions (currentIndex st)) as [q|] eqn:Q.
  - rewrite (handleOptionClick_unanswered option userInitiated st q A Q) in E.
    inversion E. eauto.
  - unfold QuizGame.handleOptionClick in E. rewrite A, Q in E. discriminate.
Qed.

(** The effect and the commit touch the countdown and the interval only. *)
Lemma commit_cells (old new : state) :
  currentIndex (commit old new) = currentIndex new /\
  selectedOption (commit old new) = selectedOption new /\
  isAnswered (commit old new) = isAnswered new /\
  answers (commit old new) = answers new /\
  streak (commit old new) = streak new.
Proof.
  unfold QuizGame.commit, QuizGame.effect, QuizGame.clearTimer.
  destruct (Nat.eqb _ _ && Bool.eqb _ _); simpl; auto.
  destruct (timerOn timerSeconds && negb (isAnswered new)); simpl; auto.
Qed.

Lemma commit_timer (old new : state) :
  (timerRef new = true -> isAnswered new = false) ->
  timerRef (commit old new) = true -> isAnswered (commit old new) = false.
Proof.
  unfold QuizGame.commit, QuizGame.effect, QuizGame.clearTimer.
  destruct (Nat.eqb _ _ && Bool.eqb _ _); simpl; auto.
  destruct (isAnswered new) eqn:A; simpl; rewrite ?andb_false_r; simpl;
    rewrite ?A; auto.
  destruct (timerOn timerSeconds); simpl; auto.
Qed.

Lemma commit_invariant (old new : state) :
  invariant new -> invariant (commit old new).
Proof.
  intros [I1 I2 I3 I4].
  destruct (commit_cells old new) as (C1 & _ & C3 & C4 & _).
  split.
  - rewrite C1. exact I1.
  - unfold answered. rewrite C4, C1, C3. exact I2.
  - rewrite C4. exact I3.
  - apply commit_timer. exact I4.
Qed.

Lemma render_running (st : state) :
  currentIndex st < length questions -> render st = Running st.
Proof.
  intros H. unfold QuizGame.render.
  destruct (nth_error questions (currentIndex st)) eqn:Q; [reflexivity|].
  apply nth_error_None in Q. lia.
Qed.

Lemma render_inversion (st : state) (o : outcome) :
  render st = o -> o = Running st \/ o = Crashed TypeError.
Proof.
  unfold QuizGame.render. destruct (nth_error _ _); intros <-; auto.
Qed.

Lemma answered_invariant (option : jsstring) (userInitiated : bool)
    (st : state) (q : QuizQuestion.t) :
  invariant st -> isAnswered st = false ->
  nth_error questions (currentIndex st) = Some q ->
  invariant (mkState (currentIndex st) (Some option) true
               (answers st ++ [answerTo q option userInitiated])
               (timeLeft st)
               (if JsString.eqb option (QuizQuestion.correctAnswer q)
                then S (streak st) else 0)
               false).
Proof.
  intros [I1 I2 I3 I4] A Q. unfold answered in I2. rewrite A in I2.
  split; simpl.
  - exact I1.
  - unfold answered; simpl. rewrite length_app; simpl. lia.
  - eapply answers_for_snoc; try reflexivity; [exact I3|].
    rewrite I2, Nat.add_0_r. exact Q.
  - discriminate.
Qed.

Lemma setTimeLeft_invariant (v : Z) (st : state) :
  invariant st -> invariant (setTimeLeft v st).
Proof. intros [I1 I2 I3 I4]. split; assumption. Qed.

Lemma clearTimer_invariant (st : state) :
  invariant st -> invariant (clearTimer st).
Proof. intros [I1 I2 I3 I4]. split; simpl; auto; discriminate. Qed.

Lemma handleOptionClick_invariant (option : jsstring) (userInitiated : bool)
    (st st' : state) :
  invariant st -> handleOptionClick option userInitiated st = Ok st' ->
  invariant st'.
Proof.
  intros I E. destruct (isAnswered st) eqn:A.
  - rewrite handleOptionClick_answered in E by exact A. inversion E; subst. exact I.
  - destruct (handleOptionClick_inversion _ _ _ _ A E) as (q & Q & ->).
    apply answered_invariant; assumption.
Qed.

Lemma tick_invariant (st st' : state) :
  invariant st -> tick st = Ok st' -> invariant st'.
Proof.
  intros I. unfold QuizGame.tick, QuizGame.handleTimeOut.
  destruct (timeLeft st <=? 1)%Z.
  - destruct (QuizGame.handleOptionClick questions (lit "__TIMEOUT__") false
                (clearTimer st)) as [s|e] eqn:E; simpl; [|discriminate].
    intros E'. inversion E'; subst. apply setTimeLeft_invariant.
    eapply handleOptionClick_invariant; [|exact E].
    apply clearTimer_invariant. exact I.
  - intros E'. inversion E'; subst. apply setTimeLeft_invariant. exact I.
Qed.

Lemma rerender_invariant (old st' : state) (r : result state) :
  (forall new, r = Ok new -> invariant new) ->
  QuizGame.rerender questions timerSeconds old r = Running st' -> invariant st'.
Proof.
  intros H. unfold QuizGame.rerender. destruct r as [new|e]; [|discriminate].
  intros E. destruct (render_inversion _ _ E) as [R|R]; [|discriminate].
  inversion R; subst. apply commit_invariant. apply H. reflexivity.
Qed.

Lemma handleNext_cases (st : state) :
  currentIndex st < length questions ->
  (S (currentIndex st) < length questions /\
   handleNext st = Running (mkState (S (currentIndex st)) None false (answers st)
                              (timeLeft st) (streak st) (timerRef st)))
  \/ (S (currentIndex st) = length questions /\
      handleNext st = Completed (answers st)).
Proof.
  intros H. unfold QuizGame.handleNext.
  destruct (Z.ltb_spec (Z.of_nat (currentIndex st)) (Z.of_nat (length questions) - 1));
    [left | right]; split; auto; lia.
Qed.

Lemma dispatch_invariant (ev : event) (st st' : state) :
  invariant st -> dispatch ev st = Running st' -> invariant st'.
Proof.
  intros I. destruct ev as [idx| | |]; simpl.
  - destruct (nth_error questions (currentIndex st)) as [q|]; [|discriminate].
    destruct (nth_error (QuizQuestion.options q) idx) as [o|].
    2:{ intros E; inversion E; subst; exact I. }
    destruct (isAnswered st) eqn:A.
    { intros E; inversion E; subst; exact I. }
    apply rerender_invariant. intros new E.
    eapply handleOptionClick_invariant; eassumption.
  - destruct (timerRef st).
    2:{ intros E; inversion E; subst; exact I. }
    apply rerender_invariant. intros new E. eapply tick_invariant; eassumption.
  - destruct (isAnswered st) eqn:A.
    2:{ intros E; inversion E; subst; exact I. }
    destruct (handleNext_cases st (inv_index st I)) as [[L ->]|[L ->]];
      [|discriminate].
    intros E. destruct (render_inversion _ _ E) as [R|R]; [|discriminate].
    inversion R; subst. apply commit_invariant.
    destruct I as [I1 I2 I3 I4]. unfold answered in I2. rewrite A in I2.
    split; simpl; auto.
    unfold answered; simpl. lia.
  - discriminate.
Qed.

Lemma mount_invariant (st : state) : mount = Running st -> invariant st.
Proof.
  unfold QuizGame.mount. intros E.
  destruct (render (initial timerSeconds)) as [s| | |] eqn:R; try discriminate.
  inversion E; subst.
  unfold QuizGame.render in R.
  destruct (nth_error questions (currentIndex (initial timerSeconds))) as [q|] eqn:Q;
    [|discriminate].
  inversion R; subst.
  assert (L : 0 < length questions).
  { apply nth_error_Some.
    assert (Q' : nth_error questions 0 = Some q) by exact Q.
    rewrite Q'. discriminate. }
  unfold QuizGame.effect, QuizGame.clearTimer; simpl.
  rewrite andb_true_r.
  destruct (timerOn timerSeconds); split; simpl; auto; try constructor;
    try discriminate.
Qed.

Lemma run_invariant (evs : list event) (st st' : state) :
  invariant st -> run evs (Running st) = Running st' -> invariant st'.
Proof.
  revert st; induction evs as [|ev evs IH]; simpl; intros st I E.
  - inversion E; subst. exact I.
  - destruct (dispatch ev st) as [s| | |] eqn:D.
    + eapply IH; [|exact E]. eapply dispatch_invariant; eassumption.
    + destruct evs; discriminate.
    + destruct evs; discriminate.
    + destruct evs; discriminate.
Qed.

Lemma session_invariant (evs : list event) (st : state) :
  session evs = Running st -> invariant st.
Proof.
  unfold QuizGame.session. destruct mount as [s| | |] eqn:M; intros E.
  - eapply run_invariant; [|exact E]. apply mount_invariant. exact M.
  - destruct evs; discriminate.
  - destruct evs; discriminate.
  - destruct evs; discriminate.
Qed.

Lemma rerender_good (old new : state) :
  invariant new -> good (QuizGame.rerender questions timerSeconds old (Ok new)).
Proof.
  intros I. simpl. rewrite render_running.
  - apply commit_invariant. exact I.
  - destruct (commit_cells old new) as (-> & _). apply (inv_index new I).
Qed.

Lemma current_question (st : state) :
  invariant st -> exists q, nth_error questions (currentIndex st) = Some q.
Proof.
  intros I. destruct (nth_error questions (currentIndex st)) as [q|] eqn:Q; eauto.
  apply nth_error_None in Q. pose proof (inv_index st I). lia.
Qed.

Lemma handleOptionClick_returns (option : jsstring) (userInitiated : bool)
    (st : state) :
  invariant st ->
  exists st', handleOptionClick option userInitiated st = Ok st' /\ invariant st'.
Proof.
  intros I. destruct (isAnswered st) eqn:A.
  - exists st. split; [apply handleOptionClick_answered; exact A | exact I].
  - destruct (current_question st I) as [q Q].
    eexists. split; [apply handleOptionClick_unanswered; eassumption|].
    apply answered_invariant; assumption.
Qed.

Lemma tick_returns (st : state) :
  invariant st -> exists st', tick st = Ok st' /\ invariant st'.
Proof.
  intros I.
  assert (H : exists st', tick st = Ok st').
  { unfold QuizGame.tick, QuizGame.handleTimeOut.
    destruct (timeLeft st <=? 1)%Z; [|eauto].
    destruct (handleOptionClick_returns (lit "__TIMEOUT__") false (clearTimer st)
                (clearTimer_invariant st I)) as (s & -> & _).
    simpl. eauto. }
  destruct H as [st' E]. exists st'. split; [exact E|].
  eapply tick_invariant; eassumption.
Qed.

Lemma dispatch_good (ev : event) (st : state) :
  invariant st -> good (dispatch ev st).
Proof.
  intros I. destruct ev as [idx| | |]; simpl dispatch.
  - destruct (current_question st I) as [q ->].
    destruct (nth_error (QuizQuestion.options q) idx) as [o|]; [|exact I].
    destruct (isAnswered st) eqn:A; [exact I|].
    destruct (handleOptionClick_returns o true st I) as (new & -> & I').
    apply rerender_good. exact I'.
  - destruct (timerRef st); [|exact I].
    destruct (tick_returns st I) as (new & -> & I').
    apply rerender_good. exact I'.
  - destruct (isAnswered st) eqn:A; [|exact I].
    destruct (handleNext_cases st (inv_index st I)) as [[L E]|[L E]].
    + pose proof (dispatch_invariant ClickNext st) as D. simpl in D.
      rewrite A in D. rewrite E in *. rewrite render_running in *.
      * apply D; [exact I | reflexivity].
      * destruct (commit_cells st (mkState (S (currentIndex st)) None false
                    (answers st) (timeLeft st) (streak st) (timerRef st)))
          as (-> & _). exact L.
      * destruct (commit_cells st (mkState (S (currentIndex st)) None false
                    (answers st) (timeLeft st) (streak st) (timerRef st)))
          as (-> & _). exact L.
    + rewrite E. simpl. destruct I as [I1 I2 I3 I4].
      unfold answered in I2. rewrite A in I2. split; [lia | exact I3].
  - exact Logic.I.
Qed.

Lemma run_good (evs : list event) (o : outcome) : good o -> good (run evs o).
Proof.
  revert o; induction evs as [|ev evs IH]; simpl; intros o G; [exact G|].
  destruct o as [st| | |]; try exact G.
  apply IH. apply dispatch_good. exact G.
Qed.

Lemma mount_running : questions <> [] -> exists st, mount = Running st.
Proof.
  intros N. unfold QuizGame.mount, QuizGame.render.
  change (currentIndex (initial timerSeconds)) with 0.
  destruct (nth_error questions 0) eqn:Q; [eauto|].
  apply nth_error_None in Q. exfalso. apply N.
  apply length_zero_iff_nil. lia.
Qed.

Lemma session_good (evs : list event) : questions <> [] -> good (session evs).
Proof.
  intros N. apply run_good. destruct (mount_running N) as [st M].
  rewrite M. apply mount_invariant. exact M.
Qed.




(** [handleNext] itself does not read [isAnswered]: called on a question
    that is not answered it moves on all the same.  What keeps a second
    click away is that the button is not rendered then. *)
Remark handleNext_unguarded (st : state) :
  isAnswered st = false ->
  S (currentIndex st) < length questions ->
  exists st', handleNext st = Running st' /\
              currentIndex st' = S (currentIndex st) /\
              answers st' = answers st.
Proof.
  intros _ L. destruct (handleNext_cases st) as [[_ E]|[L' _]]; [lia | | lia].
  rewrite E. eexists. split; [reflexivity|]. split; reflexivity.
Qed.

(** With no question at all the first render throws. *)
Remark empty_quiz_crashes (evs : list event) :
  questions = [] -> session evs = Crashed TypeError.
Proof.
  intros E. unfold QuizGame.session, QuizGame.mount, QuizGame.render.
  rewrite E. simpl. destruct evs; reflexivity.
Qed.

(** C7, as the code has it.  On an unanswered question the timeout
    records the marker [Time Out] as the selection and compares the
    string [__TIMEOUT__] with the correct answer, so the answer is
    incorrect unless the question's correct answer is that very string;
    the marker is the text of an option exactly when the question has an
    option reading [Time Out].  A click records the option clicked and is
    correct exactly when that option equals the correct answer. *)
Theorem timeout_and_click_answers (st : state) (q : QuizQuestion.t) :
  isAnswered st = false ->
  nth_error questions (currentIndex st) = Some q ->
  (exists st' a,
      handleTimeOut st = Ok st' /\
      answers st' = answers st ++ [a] /\
      UserAnswer.selectedOption a = lit "Time Out" /\
      (UserAnswer.isCorrect a = true
       <-> QuizQuestion.correctAnswer q = lit "__TIMEOUT__") /\
      (QuizQuestion.correctAnswer q <> lit "__TIMEOUT__" ->
       UserAnswer.isCorrect a = false) /\
      (In (UserAnswer.selectedOption a) (QuizQuestion.options q)
       <-> In (lit "Time Out") (QuizQuestion.options q)))
  /\ (forall option,
         exists st' a,
           handleOptionClick option true st = Ok st' /\
           answers st' = answers st ++ [a] /\
           UserAnswer.selectedOption a = option /\
           (UserAnswer.isCorrect a = true
            <-> option = QuizQuestion.correctAnswer q)).
Proof.
  intros A Q. split.
  - unfold QuizGame.handleTimeOut.
    eexists. exists (answerTo q (lit "__TIMEOUT__") false). split.
    + apply handleOptionClick_unanswered; [exact A | exact Q].
    + unfold answerTo;
        cbn [answers UserAnswer.selectedOption UserAnswer.isCorrect].
      split; [reflexivity|]. split; [reflexivity|].
      split; [|split].
      * rewrite jsstring_eqb_eq. split; congruence.
      * intros N. apply jsstring_eqb_neq. congruence.
      * tauto.
  - intros option. eexists. exists (answerTo q option true). split.
    + apply handleOptionClick_unanswered; [exact A | exact Q].
    + unfold answerTo;
        cbn [answers UserAnswer.selectedOption UserAnswer.isCorrect].
      split; [reflexivity|]. split; [reflexivity|].
      apply jsstring_eqb_eq.
Qed.

End SessionFacts.

(* ------------------------------------------------------------------ *)
(** ** Sessions on concrete questions *)

Lemma three_question_session :
  QuizGame.session threeQuestions (Some 10%Z) threeEvents
  = QuizGame.Completed threeAnswers.
Proof. vm_compute. reflexivity. Qed.

Lemma three_question_score :
  App.computeScore threeAnswers threeQuestions = of_Z 33.
Proof. vm_compute. reflexivity. Qed.




(** The timeout on the second question records the marker and is
    incorrect. *)
Lemma timeout_and_click_answers_witness :
  exists st' a,
    QuizGame.handleTimeOut threeQuestions beforeTimeout = Ok st' /\
    QuizGame.answers st' = QuizGame.answers beforeTimeout ++ [a] /\
    UserAnswer.selectedOption a = lit "Time Out" /\
    UserAnswer.isCorrect a = false.
Proof.
  destruct (timeout_and_click_answers threeQuestions beforeTimeout q_capital)
    as [(st' & a & E & G & S & _ & F & _) _]; [reflexivity | reflexivity |].
  exists st', a. repeat split; try assumption.
  apply F. vm_compute. discriminate.
Defined.

(** C7 fails as stated: on [q_sentinel] with a one-second timer, the
    first tick records an answer that is correct, and whose recorded
    selection is the text of one of the options. *)
Lemma timeout_counted_correct :
  exists st a,
    QuizGame.session [q_sentinel] (Some 1%Z) [QuizGame.Tick] = QuizGame.Running st /\
    QuizGame.answers st = [a] /\
    UserAnswer.isCorrect a = true /\
    In (UserAnswer.selectedOption a) (QuizQuestion.options q_sentinel).
Proof.
  eexists. eexists. split; [vm_compute; reflexivity|].
  split; [reflexivity|]. split; [reflexivity|].
  simpl. right. left. reflexivity.
Qed.

(* ------------------------------------------------------------------ *)
(** ** Scoring *)

Lemma computeScore_counts (answers : list UserAnswer.t)
    (questions : list QuizQuestion.t) :
  App.computeScore answers questions
  = scoreOf (App.correctCount answers) (length questions).
Proof. reflexivity. Qed.

Lemma score_exact_up_to_39 : forallb agrees (seq 1 39) = true.
Proof. vm_compute. reflexivity. Qed.

(** Up to 100 questions the score is an integer within one half of the
    exact percentage: at 23 of 40 it is the lower of the two nearest. *)
Lemma score_nearest_up_to_100 : forallb nearest (seq 1 100) = true.
Proof. vm_compute. reflexivity. Qed.

(** C5 at a failing input: a session of 40 questions with 23 correct
    answers.  The quotient 23/40 and its product with 100 are each
    rounded to binary64; the product is the number just below 57.5, and
    [Math.round] makes it 57, which is the score saved.  The exact value
    100 * 23 / 40 = 57.5 rounds to 58, a half going up or to the even
    neighbour alike. *)
Theorem score_of_23_in_40 :
  exists final saved,
    QuizGame.session fortyQuestions None fortyEvents = QuizGame.Completed final
    /\ length final = 40
    /\ App.correctCount final = 23
    /\ App.savedQuizzes
         (App.playQuiz (lit "1700000000000") (lit "2023-11-14T22:13:20.000Z")
            fortyEvents quizStarted) = [saved]
    /\ SavedQuiz.totalQuestions saved = 40
    /\ mul (div (of_nat 23) (of_nat 40)) (of_Z 100)
       = S754_finite false 8092405580431359 (-47)
    /\ SavedQuiz.score saved = of_Z 57
    /\ round_half_up_percent 23 40 = 58%Z
    /\ round_half_even_percent 23 40 = 58%Z.
Proof.
  eexists. eexists. split; [vm_compute; reflexivity|].
  split; [reflexivity|]. split; [reflexivity|].
  split; [vm_compute; reflexivity|]. split; [reflexivity|].
  split; [vm_compute; reflexivity|].
  split; [vm_compute; reflexivity|].
  split; vm_compute; reflexivity.
Qed.

(* ------------------------------------------------------------------ *)
(** ** The history store *)

Lemma filter_subsequence {A : Type} (f : A -> bool) (l : list A) :
  subsequence (filter f l) l.
Proof.
  induction l as [|x l IH]; simpl; [constructor|].
  destruct (f x); constructor; exact IH.
Qed.

Lemma filter_keeps_all (id : jsstring) (l : list SavedQuiz.t) :
  ~ In id (map SavedQuiz.id l) -> filter (App.keeps id) l = l.
Proof.
  induction l as [|r l IH]; simpl; intros H; [reflexivity|].
  unfold App.keeps at 1.
  destruct (JsString.eqb (SavedQuiz.id r) id) eqn:E.
  - apply jsstring_eqb_eq in E. exfalso. apply H. left. exact E.
  - simpl. rewrite IH by tauto. reflexivity.
Qed.

Lemma filter_removes_the_one (id : jsstring) (l : list SavedQuiz.t) :
  NoDup (map SavedQuiz.id l) -> In id (map SavedQuiz.id l) ->
  exists l1 r l2,
    l = l1 ++ r :: l2 /\ SavedQuiz.id r = id /\
    filter (App.keeps id) l = l1 ++ l2.
Proof.
  induction l as [|r0 l IH]; simpl; intros N H; [contradiction|].
  inversion N as [|? ? N1 N2]; subst.
  unfold App.keeps at 1.
  destruct (JsString.eqb (SavedQuiz.id r0) id) eqn:E; simpl.
  - apply jsstring_eqb_eq in E. exists [], r0, l. simpl.
    rewrite filter_keeps_all by (rewrite <- E; exact N1). auto.
  - apply jsstring_eqb_neq in E. destruct H as [H|H]; [contradiction|].
    destruct (IH N2 H) as (l1 & r & l2 & -> & Hr & F).
    exists (r0 :: l1), r, l2. simpl. rewrite F. auto.
Qed.

(** C8, as the code has it.  Deleting an identifier no record carries
    leaves the state as it is.  Deleting keeps exactly the records with
    another identifier, in their order; when the identifiers of the
    collection are distinct and one record carries the identifier, that
    one record is removed and the records around it stay in place. *)
Theorem delete_filters_by_identifier (id : jsstring) (st : App.state) :
  (~ In id (map SavedQuiz.id (App.savedQuizzes st)) ->
   App.handleDeleteQuiz id st = st)
  /\ subsequence (App.savedQuizzes (App.handleDeleteQuiz id st)) (App.savedQuizzes st)
  /\ (forall r, In r (App.savedQuizzes (App.handleDeleteQuiz id st))
                <-> In r (App.savedQuizzes st) /\ SavedQuiz.id r <> id)
  /\ (NoDup (map SavedQuiz.id (App.savedQuizzes st)) ->
      In id (map SavedQuiz.id (App.savedQuizzes st)) ->
      exists l1 r l2,
        App.savedQuizzes st = l1 ++ r :: l2 /\ SavedQuiz.id r = id /\
        App.savedQuizzes (App.handleDeleteQuiz id st) = l1 ++ l2).
Proof.
  split; [|split; [|split]].
  - intros H. destruct st; unfold App.handleDeleteQuiz; simpl in *.
    rewrite filter_keeps_all by exact H. reflexivity.
  - apply filter_subsequence.
  - intros r. simpl. rewrite filter_In. unfold App.keeps.
    rewrite negb_true_iff, jsstring_eqb_neq. tauto.
  - intros N H. simpl. apply filter_removes_the_one; assumption.
Qed.

(** In a history of three records, deleting an unknown identifier
    changes nothing and deleting the middle one removes it alone. *)
Lemma delete_filters_by_identifier_witness :
  App.handleDeleteQuiz (lit "1600000000000") historyOfThree = historyOfThree
  /\ exists l1 r l2,
       App.savedQuizzes historyOfThree = l1 ++ r :: l2 /\
       SavedQuiz.id r = lit "1700000000002" /\
       App.savedQuizzes (App.handleDeleteQuiz (lit "1700000000002") historyOfThree)
       = l1 ++ l2.
Proof.
  split.
  - apply (delete_filters_by_identifier (lit "1600000000000") historyOfThree).
    vm_compute. intuition discriminate.
  - apply (delete_filters_by_identifier (lit "1700000000002") historyOfThree).
    + repeat constructor; vm_compute; intuition discriminate.
    + vm_compute. auto.
Defined.

(** C8 fails as stated: two sessions completed at the same clock reading
    are saved under one identifier, and deleting it removes both. *)
Lemma delete_removes_both_twins :
  let st := App.handleQuizComplete (lit "1700000000000") (lit "2023-11-14T22:13:20.000Z")
              threeAnswers
              (App.handleQuizComplete (lit "1700000000000") (lit "2023-11-14T22:13:20.000Z")
                 threeAnswers
                 (App.mkState QUIZ threeQuestions [] (lit "Logic") None None [] None)) in
  length (App.savedQuizzes st) = 2
  /\ In (lit "1700000000000") (map SavedQuiz.id (App.savedQuizzes st))
  /\ length (App.savedQuizzes (App.handleDeleteQuiz (lit "1700000000000") st)) = 0.
Proof. vm_compute. auto. Qed.

(* ================================================================== *)
(** * Part IV: further properties of the code *)

(* ------------------------------------------------------------------ *)
(** ** The bracket span, characterised *)

Lemma star_then_close_none_inv (s : jsstring) :
  Regex.star_then_close s = None -> ~ In Regex.RBRACKET s.
Proof.
  induction s as [|c r IH]; simpl; [tauto|].
  destruct (Regex.star_then_close r) as [m|]; [discriminate|].
  destruct (N.eqb_spec c Regex.RBRACKET) as [->|N]; [discriminate|].
  intros _ [E|H]; [congruence | exact (IH eq_refl H)].
Qed.

Lemma star_then_close_some_inv (s m : jsstring) :
  Regex.star_then_close s = Some m ->
  exists mid suf,
    s = mid ++ Regex.RBRACKET :: suf /\ m = mid ++ [Regex.RBRACKET] /\
    ~ In Regex.RBRACKET suf.
Proof.
  revert m; induction s as [|c r IH]; simpl; intros m; [discriminate|].
  destruct (Regex.star_then_close r) as [m'|] eqn:E.
  - intros H; inversion H; subst.
    destruct (IH m' eq_refl) as (mid & suf & -> & -> & N).
    exists (c :: mid), suf. auto.
  - destruct (N.eqb_spec c Regex.RBRACKET) as [->|N]; [|discriminate].
    intros H; inversion H; subst.
    exists [], r. repeat split. apply star_then_close_none_inv. exact E.
Qed.

Lemma match_array_some_inv (s m : jsstring) :
  Regex.match_array s = Some m ->
  exists pre mid suf,
    s = pre ++ m ++ suf /\
    m = Regex.LBRACKET :: mid ++ [Regex.RBRACKET] /\
    ~ In Regex.LBRACKET pre /\
    ~ In Regex.RBRACKET suf /\
    Regex.match_array m = Some m.
Proof.
  revert m; induction s as [|c r IH]; simpl; intros m; [discriminate|].
  assert (K : Regex.match_array r = Some m ->
              c <> Regex.LBRACKET \/ Regex.star_then_close r = None ->
              exists pre mid suf,
                c :: r = pre ++ m ++ suf /\
                m = Regex.LBRACKET :: mid ++ [Regex.RBRACKET] /\
                ~ In Regex.LBRACKET pre /\ ~ In Regex.RBRACKET suf /\
                Regex.match_array m = Some m).
  { intros H [N|N].
    - destruct (IH m H) as (pre & mid & suf & -> & -> & Hp & Hs & I).
      exists (c :: pre), mid, suf. repeat split; auto.
      simpl. intros [E|E]; [congruence | tauto].
    - apply star_then_close_none_inv in N.
      rewrite (match_array_no_close r N) in H. discriminate. }
  destruct (N.eqb_spec c Regex.LBRACKET) as [->|N]; [|intros H; apply K; auto].
  destruct (Regex.star_then_close r) as [m'|] eqn:E; [|intros H; apply K; auto].
  intros H; inversion H; subst.
  destruct (star_then_close_some_inv r m' E) as (mid & suf & -> & -> & Hs).
  exists [], mid, suf. repeat split; auto.
  - simpl. rewrite <- app_assoc. reflexivity.
  - apply (match_array_span [] mid []); auto.
Qed.

(** X1.  Whatever the extraction step returns is a piece of the response
    text: it starts at the first opening bracket of the text, ends at
    its last closing bracket, and extracting from it again gives it
    back. *)
Theorem match_array_is_first_to_last (s m : jsstring) :
  Regex.match_array s = Some m ->
  exists pre mid suf,
    s = pre ++ m ++ suf /\
    m = Regex.LBRACKET :: mid ++ [Regex.RBRACKET] /\
    ~ In Regex.LBRACKET pre /\
    ~ In Regex.RBRACKET suf /\
    Regex.match_array m = Some m.
Proof.
  intros H. destruct (match_array_some_inv s m H) as (pre & mid & suf & K).
  exists pre, mid, suf. exact K.
Qed.

Lemma match_array_is_first_to_last_witness :
  exists pre mid suf,
    lit "Sure: [1, [2]] done] ok" = pre ++ lit "[1, [2]] done]" ++ suf /\
    lit "[1, [2]] done]" = Regex.LBRACKET :: mid ++ [Regex.RBRACKET].
Proof.
  destruct (match_array_is_first_to_last (lit "Sure: [1, [2]] done] ok")
              (lit "[1, [2]] done]"))
    as (pre & mid & suf & E & M & _); [vm_compute; reflexivity|].
  exists pre, mid, suf. auto.
Defined.

(** X2.  The extraction step finds a span exactly when some opening
    bracket of the text has a closing bracket somewhere after it; a
    closing bracket that only precedes the opening ones does not count. *)
Theorem match_array_some_iff (s : jsstring) :
  (exists m, Regex.match_array s = Some m)
  <-> (exists pre rest, s = pre ++ Regex.LBRACKET :: rest /\ In Regex.RBRACKET rest).
Proof.
  split.
  - intros [m H].
    destruct (match_array_some_inv s m H)
      as (pre & mid & suf & -> & -> & _).
    exists pre, (mid ++ [Regex.RBRACKET] ++ suf). split.
    + simpl. rewrite <- !app_assoc. reflexivity.
    + apply in_or_app. right. left. reflexivity.
  - intros (pre & rest & -> & H).
    assert (S : forall t, In Regex.RBRACKET t ->
                          exists m, Regex.star_then_close t = Some m).
    { intros t I. destruct (Regex.star_then_close t) as [m|] eqn:E; [eauto|].
      exfalso. exact (star_then_close_none_inv t E I). }
    induction pre as [|c pre IH]; simpl.
    + destruct (S rest H) as [m ->]. eauto.
    + destruct (N.eqb c Regex.LBRACKET); [|exact IH].
      destruct (S (pre ++ Regex.LBRACKET :: rest)) as [m ->]; [|eauto].
      apply in_or_app. right. right. exact H.
Qed.

(* ------------------------------------------------------------------ *)
(** ** Starting a quiz *)

(** X3.  As [App] calls it, with the configuration object in the place
    of the topic string, [generateQuiz] throws inside its [try] block
    before the model is asked anything and returns the fallback; so
    [handleStartQuiz] always ends on the QUIZ screen with that single
    question, not loading and without an error toast, whatever the model
    would answer.  Called with strings, it is [generateQuiz] as modelled
    for the service. *)
Theorem handleStartQuiz_shows_fallback
    (response : Type) (generateContent : jsstring -> result response)
    (text : response -> result jsstring) (message : exn -> jsstring) :
  (forall config st,
      Shell.handleStartQuiz generateContent text message config st
      = Shell.mkCells QUIZ false None (QuizConfig.topic config)
          (QuizConfig.timerSeconds config)
          (JArr [GeminiService.fallbackQuestion]))
  /\ (forall config difficulty,
         Shell.generateQuiz_called generateContent text (Shell.Obj config) difficulty
         = Ok (JArr [GeminiService.fallbackQuestion]))
  /\ (forall topic difficulty,
         Shell.generateQuiz_called generateContent text (Shell.Str topic)
           (Some difficulty)
         = GeminiService.generateQuiz generateContent text topic difficulty).
Proof.
  split; [|split]; reflexivity.
Qed.

(* ------------------------------------------------------------------ *)
(** ** The steps of a session *)

Section SessionSteps.

Import QuizGame.

Variable questions : list QuizQuestion.t.
Variable timerSeconds : option Z.

Local Abbreviation handleOptionClick := (QuizGame.handleOptionClick questions).
Local Abbreviation handleNext := (QuizGame.handleNext questions).
Local Abbreviation render := (QuizGame.render questions).
Local Abbreviation commit := (QuizGame.commit timerSeconds).
Local Abbreviation dispatch := (QuizGame.dispatch questions timerSeconds).
Local Abbreviation run := (QuizGame.run questions timerSeconds).
Local Abbreviation session := (QuizGame.session questions timerSeconds).
Local Abbreviation mount := (QuizGame.mount questions timerSeconds).
Local Abbreviation invariant := (invariant questions).
Local Abbreviation transition := (transition questions timerSeconds).

Lemma commit_answered (old new : state) :
  isAnswered old = false -> isAnswered new = true -> timerRef new = false ->
  commit old new = new.
Proof.
  intros A B C. unfold QuizGame.commit, QuizGame.effect, QuizGame.clearTimer.
  rewrite A, B. simpl. rewrite andb_false_r. simpl. rewrite andb_false_r.
  destruct new; simpl in *; subst; reflexivity.
Qed.

Lemma commit_unchanged (old new : state) :
  currentIndex new = currentIndex old -> isAnswered new = isAnswered old ->
  commit old new = new.
Proof.
  intros A B. unfold QuizGame.commit. rewrite A, B, Nat.eqb_refl.
  destruct (isAnswered old); reflexivity.
Qed.

Lemma commit_next (st : state) :
  commit st (mkState (S (currentIndex st)) None false (answers st)
               (timeLeft st) (streak st) (timerRef st))
  = shownNext timerSeconds st.
Proof.
  unfold QuizGame.commit, QuizGame.effect, QuizGame.clearTimer, shownNext.
  simpl. replace (Nat.eqb (currentIndex st) (S (currentIndex st))) with false.
  - simpl. rewrite andb_true_r. destruct (timerOn timerSeconds); reflexivity.
  - symmetry. apply Nat.eqb_neq. lia.
Qed.

Lemma shownNext_cells (st : state) :
  currentIndex (shownNext timerSeconds st) = S (currentIndex st) /\
  selectedOption (shownNext timerSeconds st) = None /\
  isAnswered (shownNext timerSeconds st) = false /\
  answers (shownNext timerSeconds st) = answers st /\
  streak (shownNext timerSeconds st) = streak st /\
  timerRef (shownNext timerSeconds st) = timerOn timerSeconds.
Proof.
  unfold shownNext. destruct (timerOn timerSeconds); simpl; auto 10.
Qed.

Lemma dispatch_click (st : state) (q : QuizQuestion.t) (idx : nat) (o : jsstring) :
  isAnswered st = false ->
  nth_error questions (currentIndex st) = Some q ->
  nth_error (QuizQuestion.options q) idx = Some o ->
  dispatch (ClickOption idx) st = Running (answeredState st q o true (timeLeft st)).
Proof.
  intros A Q O. simpl. rewrite Q, O, A.
  rewrite (handleOptionClick_unanswered questions o true st q A Q).
  unfold QuizGame.rerender.
  change (mkState (currentIndex st) (Some o) true
            (answers st ++ [answerTo q o true]) (timeLeft st)
            (if JsString.eqb o (QuizQuestion.correctAnswer q)
             then S (streak st) else 0) false)
    with (answeredState st q o true (timeLeft st)).
  rewrite commit_answered by (auto; reflexivity).
  unfold QuizGame.render. simpl. rewrite Q. reflexivity.
Qed.

Lemma dispatch_timeout (st : state) (q : QuizQuestion.t) :
  timerRef st = true -> isAnswered st = false -> (timeLeft st <= 1)%Z ->
  nth_error questions (currentIndex st) = Some q ->
  dispatch Tick st = Running (answeredState st q (lit "__TIMEOUT__") false 0).
Proof.
  intros T A L Q. simpl. rewrite T. unfold QuizGame.tick, QuizGame.handleTimeOut.
  destruct (Z.leb_spec (timeLeft st) 1); [|lia].
  rewrite (handleOptionClick_unanswered questions (lit "__TIMEOUT__") false
             (clearTimer st) q) by (simpl; assumption).
  unfold QuizGame.rerender, bind.
  change (setTimeLeft 0 _) with (answeredState st q (lit "__TIMEOUT__") false 0).
  rewrite commit_answered by (auto; reflexivity).
  unfold QuizGame.render. simpl. rewrite Q. reflexivity.
Qed.

Lemma dispatch_countdown (st : state) :
  timerRef st = true -> (1 < timeLeft st)%Z ->
  currentIndex st < length questions ->
  dispatch Tick st = Running (setTimeLeft (timeLeft st - 1) st).
Proof.
  intros T L I. simpl. rewrite T. unfold QuizGame.tick.
  destruct (Z.leb_spec (timeLeft st) 1); [lia|].
  unfold QuizGame.rerender. rewrite commit_unchanged by reflexivity.
  apply render_running. exact I.
Qed.

Lemma dispatch_advance (st : state) :
  isAnswered st = true -> S (currentIndex st) < length questions ->
  dispatch ClickNext st = Running (shownNext timerSeconds st).
Proof.
  intros A L. simpl. rewrite A.
  destruct (handleNext_cases questions st) as [[_ E]|[L' _]]; [lia | | lia].
  rewrite E, commit_next. apply render_running.
  unfold shownNext. destruct (timerOn timerSeconds); exact L.
Qed.

Lemma dispatch_finish (st : state) :
  isAnswered st = true -> S (currentIndex st) = length questions ->
  dispatch ClickNext st = Completed (answers st).
Proof.
  intros A L. simpl. rewrite A.
  destruct (handleNext_cases questions st) as [[L' _]|[_ E]]; [lia | lia |].
  rewrite E. reflexivity.
Qed.

(** Every change of state of the rendered component is one of the four
    transitions. *)
Lemma dispatch_transition (ev : event) (st st' : state) :
  invariant st -> dispatch ev st = Running st' ->
  st' = st \/ transition st st'.
Proof.
  intros I H. destruct (current_question questions st I) as [q Q].
  destruct ev as [idx| | |].
  - destruct (nth_error (QuizQuestion.options q) idx) as [o|] eqn:O.
    + destruct (isAnswered st) eqn:A.
      * simpl in H. rewrite Q, O, A in H. inversion H. auto.
      * rewrite (dispatch_click st q idx o A Q O) in H. inversion H.
        right. eapply t_click; eassumption.
    + simpl in H. rewrite Q, O in H. inversion H. auto.
  - destruct (timerRef st) eqn:T.
    + pose proof (inv_timer st I T) as A.
      destruct (Z.leb_spec (timeLeft st) 1) as [L|L].
      * rewrite (dispatch_timeout st q T A L Q) in H. inversion H.
        right. eapply t_timeout; eassumption.
      * rewrite (dispatch_countdown st T L (inv_index st I)) in H. inversion H.
        right. apply t_countdown; assumption.
    + simpl in H. rewrite T in H. inversion H. auto.
  - destruct (isAnswered st) eqn:A.
    + destruct (handleNext_cases questions st (inv_index st I)) as [[L _]|[L _]].
      * rewrite (dispatch_advance st A L) in H. inversion H.
        right. apply t_advance; assumption.
      * rewrite (dispatch_finish st A L) in H. discriminate.
    + simpl in H. rewrite A in H. inversion H. auto.
  - discriminate.
Qed.

(** Every transition is what some event does. *)
Lemma transition_dispatch (st st' : state) :
  invariant st -> transition st st' -> exists ev, dispatch ev st = Running st'.
Proof.
  intros I T. destruct T as [st q idx o A Q O | st q T A L Q | st T L | st A L].
  - exists (ClickOption idx). apply dispatch_click; assumption.
  - exists Tick. apply dispatch_timeout; assumption.
  - exists Tick. apply dispatch_countdown; auto. apply (inv_index st I).
  - exists ClickNext. apply dispatch_advance; assumption.
Qed.

Lemma transition_invariant (st st' : state) :
  invariant st -> transition st st' -> invariant st'.
Proof.
  intros I T. destruct (transition_dispatch st st' I T) as [ev D].
  eapply dispatch_invariant; eassumption.
Qed.

Lemma mount_shownFirst (st : state) : mount = Running st -> st = shownFirst timerSeconds.
Proof.
  unfold QuizGame.mount, QuizGame.render.
  destruct (nth_error questions (currentIndex (initial timerSeconds)));
    [|discriminate].
  intros H; inversion H.
  unfold QuizGame.effect, QuizGame.clearTimer, shownFirst. simpl.
  rewrite andb_true_r. destruct (timerOn timerSeconds); reflexivity.
Qed.

Lemma mount_cases :
  mount = Running (shownFirst timerSeconds) \/ mount = Crashed TypeError.
Proof.
  destruct mount as [s| | |] eqn:M.
  - left. rewrite (mount_shownFirst s M). reflexivity.
  - exfalso. revert M. unfold QuizGame.mount, QuizGame.render.
    destruct (nth_error _ _); discriminate.
  - exfalso. revert M. unfold QuizGame.mount, QuizGame.render.
    destruct (nth_error _ _); discriminate.
  - right. revert M. unfold QuizGame.mount, QuizGame.render.
    destruct (nth_error _ _); [discriminate|]. intros H; symmetry; exact H.
Qed.

Lemma run_cons (ev : event) (evs : list event) (st : state) :
  run (ev :: evs) (Running st) = run evs (dispatch ev st).
Proof. reflexivity. Qed.

Lemma run_stopped (evs : list event) (o : outcome) :
  (forall st, o <> Running st) -> run evs o = o.
Proof.
  intros N. destruct evs; [reflexivity|]. simpl.
  destruct o; try reflexivity. exfalso. eapply N. reflexivity.
Qed.

Lemma run_app (evs1 evs2 : list event) (o : outcome) :
  run (evs1 ++ evs2) o = run evs2 (run evs1 o).
Proof.
  revert o; induction evs1 as [|ev evs1 IH]; intros o; [reflexivity|].
  simpl. destruct o as [st| | |]; try (symmetry; apply run_stopped; discriminate).
  apply IH.
Qed.

(** Induction over the states of a run: a property of the first state
    that every transition preserves holds of every later state. *)
Lemma run_induction (P : state -> Prop) :
  (forall st st', invariant st -> P st -> transition st st' -> P st') ->
  forall evs st st',
    invariant st -> P st -> run evs (Running st) = Running st' -> P st'.
Proof.
  intros Step evs. induction evs as [|ev evs IH]; simpl; intros st st' I H E.
  - inversion E; subst. exact H.
  - destruct (dispatch ev st) as [s| | |] eqn:D;
      try (rewrite run_stopped in E by discriminate; discriminate).
    destruct (dispatch_transition ev st s I D) as [->|T].
    + eapply IH; eassumption.
    + eapply IH; [| |exact E].
      * eapply transition_invariant; eassumption.
      * eapply Step; eassumption.
Qed.

Lemma session_induction (P : state -> Prop) :
  P (shownFirst timerSeconds) ->
  (forall st st', invariant st -> P st -> transition st st' -> P st') ->
  forall evs st, session evs = Running st -> P st.
Proof.
  intros Base Step evs st E. unfold QuizGame.session in E.
  destruct mount as [s| | |] eqn:M;
    try (rewrite run_stopped in E by discriminate; discriminate).
  eapply (run_induction P Step evs s st); [| |exact E].
  - apply (mount_invariant questions timerSeconds). exact M.
  - rewrite (mount_shownFirst s M). exact Base.
Qed.

Lemma dispatch_completed (ev : event) (st : state) (final : list UserAnswer.t) :
  dispatch ev st = Completed final -> final = answers st.
Proof.
  destruct ev as [idx| | |]; simpl.
  - destruct (nth_error questions (currentIndex st)) as [q|]; [|discriminate].
    destruct (nth_error (QuizQuestion.options q) idx); [|discriminate].
    destruct (isAnswered st); [discriminate|].
    unfold QuizGame.rerender, QuizGame.render.
    destruct (QuizGame.handleOptionClick questions j true st); [|discriminate].
    destruct (nth_error _ _); discriminate.
  - destruct (timerRef st); [|discriminate].
    unfold QuizGame.rerender, QuizGame.render.
    destruct (QuizGame.tick questions st); [|discriminate].
    destruct (nth_error _ _); discriminate.
  - destruct (isAnswered st); [|discriminate].
    unfold QuizGame.handleNext, QuizGame.render.
    destruct (_ <? _)%Z.
    + destruct (nth_error _ _); discriminate.
    + intros H; inversion H; reflexivity.
  - discriminate.
Qed.

Lemma run_completed_inv (evs : list event) (st : state)
    (final : list UserAnswer.t) :
  run evs (Running st) = Completed final ->
  exists evs' st', run evs' (Running st) = Running st' /\ answers st' = final.
Proof.
  revert st; induction evs as [|ev evs IH]; simpl; intros st E; [discriminate|].
  destruct (dispatch ev st) as [s'|f| |e] eqn:D;
    try (rewrite run_stopped in E by discriminate; discriminate).
  - destruct (IH s' E) as (evs' & st' & R & A).
    exists (ev :: evs'), st'. simpl. rewrite D. auto.
  - rewrite run_stopped in E by discriminate. inversion E; subst.
    exists [], st. split; [reflexivity|].
    symmetry. eapply dispatch_completed. exact D.
Qed.

(** The list handed to [onComplete] is the answer list of a state the
    session went through. *)
Lemma session_completed_inv (evs : list event) (final : list UserAnswer.t) :
  session evs = Completed final ->
  exists evs' st, session evs' = Running st /\ answers st = final.
Proof.
  unfold QuizGame.session.
  destruct mount_cases as [M|M]; rewrite M;
    [|intros E; rewrite run_stopped in E by discriminate; discriminate].
  apply run_completed_inv.
Qed.

Lemma trailing_correct_snoc (l : list UserAnswer.t) (a : UserAnswer.t) :
  trailing_correct (l ++ [a])
  = if UserAnswer.isCorrect a then S (trailing_correct l) else 0.
Proof. unfold trailing_correct. rewrite rev_app_distr. reflexivity. Qed.


Lemma session_selection (evs : list event) (st : state) :
  session evs = Running st -> selection_matches questions st.
Proof.
  apply (session_induction (selection_matches questions)).
  - reflexivity.
  - intros s s' _ H T. unfold selection_matches in *.
    destruct T as [s q idx o A Q O | s q T A L Q | s T L | s A L]; simpl.
    + exists o, q, (answers s), (answerTo q o true). auto.
    + exists (lit "__TIMEOUT__"), q, (answers s),
        (answerTo q (lit "__TIMEOUT__") false). auto.
    + exact H.
    + unfold shownNext. destruct (timerOn timerSeconds); reflexivity.
Qed.



Lemma nth_error_snoc {A : Type} (l : list A) (x y : A) (k : nat) :
  nth_error (l ++ [x]) k = Some y ->
  nth_error l k = Some y \/ (k = length l /\ y = x).
Proof.
  intros H. destruct (Nat.lt_ge_cases k (length l)) as [L|L].
  - rewrite nth_error_app1 in H by exact L. auto.
  - rewrite nth_error_app2 in H by exact L.
    destruct (k - length l) as [|d] eqn:D; simpl in H.
    + inversion H. right. split; [lia | reflexivity].
    + destruct d; discriminate.
Qed.

Lemma session_provenance (evs : list event) (st : state) :
  session evs = Running st -> provenance questions timerSeconds st.
Proof.
  apply (session_induction (provenance questions timerSeconds)).
  - split; [intros H; exact H|]. intros [|k] a q H; discriminate.
  - intros s s' I [HT HP] T.
    assert (Snoc : forall q o u,
               isAnswered s = false ->
               nth_error questions (currentIndex s) = Some q ->
               (from_click (answerTo q o u) q \/
                (timerOn timerSeconds = true /\ from_timeout (answerTo q o u) q)) ->
               forall k a q',
                 nth_error (answers s ++ [answerTo q o u]) k = Some a ->
                 nth_error questions k = Some q' ->
                 from_click a q' \/ (timerOn timerSeconds = true /\ from_timeout a q')).
    { intros q o u A Q F k a q' Ha Hq.
      destruct (nth_error_snoc _ _ _ _ Ha) as [Old|[-> ->]].
      - eapply HP; eassumption.
      - pose proof (inv_count s I) as C. unfold answered in C.
        rewrite A, Nat.add_0_r in C. rewrite C, Q in Hq. inversion Hq; subst.
        exact F. }
    destruct T as [s q idx o A Q O | s q T A L Q | s T L | s A L].
    + split; [discriminate|]. apply Snoc; auto.
      left. split; simpl; [|reflexivity]. eapply nth_error_In. exact O.
    + split; [discriminate|]. apply Snoc; auto.
      right. split; [auto|]. split; reflexivity.
    + split; assumption.
    + destruct (shownNext_cells s) as (_ & _ & _ & CA & _ & CT).
      unfold provenance. rewrite CA, CT. split; [auto | exact HP].
Qed.



Lemma setTimeLeft_same (st : state) : setTimeLeft (timeLeft st) st = st.
Proof. destruct st; reflexivity. Qed.

Lemma countdown_run (k : nat) (st : state) :
  timerRef st = true -> currentIndex st < length questions ->
  (Z.of_nat k < timeLeft st)%Z ->
  run (repeat Tick k) (Running st)
  = Running (setTimeLeft (timeLeft st - Z.of_nat k) st).
Proof.
  revert st; induction k as [|k IH]; intros st T I L.
  - simpl. rewrite Z.sub_0_r, setTimeLeft_same. reflexivity.
  - simpl repeat. rewrite run_cons, dispatch_countdown by (auto; lia).
    rewrite IH by (simpl; auto; lia). simpl. unfold setTimeLeft. simpl.
    do 2 f_equal. lia.
Qed.

Lemma countdown_to_timeout (st : state) (q : QuizQuestion.t) (n : nat) :
  timerRef st = true -> isAnswered st = false ->
  nth_error questions (currentIndex st) = Some q ->
  ((timeLeft st <= 1)%Z ->
   dispatch Tick st = Running (answeredState st q (lit "__TIMEOUT__") false 0))
  /\ (timeLeft st = Z.of_nat (S n) ->
      (forall k, k <= n ->
         run (repeat Tick k) (Running st)
         = Running (setTimeLeft (Z.of_nat (S n - k)) st))
      /\ run (repeat Tick (S n)) (Running st)
         = Running (answeredState st q (lit "__TIMEOUT__") false 0)).
Proof.
  intros T A Q.
  assert (I : currentIndex st < length questions).
  { apply nth_error_Some. rewrite Q. discriminate. }
  split; [intros L; apply dispatch_timeout; assumption|].
  intros E. split.
  - intros k K. rewrite countdown_run by (auto; lia).
    do 2 f_equal. lia.
  - replace (S n) with (n + 1) at 1 by lia.
    rewrite repeat_app, run_app, countdown_run by (auto; lia).
    simpl repeat. rewrite run_cons.
    rewrite (dispatch_timeout _ q) by (simpl; auto; lia). reflexivity.
Qed.



(** X11.  The button reads Finish Quiz exactly when clicking it ends the
    session with [onComplete], and Next Question exactly when clicking
    it moves to another question. *)
Theorem finish_label_completes (st : state) :
  currentIndex st < length questions ->
  (QuizView.nextLabel questions st = QuizView.FinishQuiz
   <-> handleNext st = Completed (answers st))
  /\ (QuizView.nextLabel questions st = QuizView.NextQuestion
      <-> exists st', handleNext st = Running st' /\
                      currentIndex st' = S (currentIndex st)).
Proof.
  intros I. unfold QuizView.nextLabel, QuizGame.handleNext.
  destruct (Z.eqb_spec (Z.of_nat (currentIndex st))
                       (Z.of_nat (length questions) - 1)) as [E|E];
    destruct (Z.ltb_spec (Z.of_nat (currentIndex st))
                         (Z.of_nat (length questions) - 1)) as [L|L];
    try lia; split; split; try discriminate; try reflexivity.
  - intros (st' & H & _). discriminate.
  - intros _. eexists. split; reflexivity.
Qed.

Lemma skipn_nth_error {A : Type} (l : list A) (i : nat) (x : A) :
  nth_error l i = Some x -> skipn i l = x :: skipn (S i) l.
Proof.
  revert i; induction l as [|y l IH]; intros [|i] H; try discriminate.
  - inversion H. reflexivity.
  - simpl in H. change (skipn i l = x :: skipn (S i) l). apply IH. exact H.
Qed.

Lemma answer_all_run (m : nat) (st : state) :
  (forall q, In q questions -> QuizQuestion.options q <> []) ->
  invariant st -> isAnswered st = false ->
  currentIndex st + S m = length questions ->
  run (answerAll (S m)) (Running st)
  = Completed (answers st ++ map firstAnswer (skipn (currentIndex st) questions)).
Proof.
  intros Opt. revert st; induction m as [|m IH]; intros st I A L;
    destruct (current_question questions st I) as [q Q];
    assert (O : nth_error (QuizQuestion.options q) 0
                = Some (hd [] (QuizQuestion.options q)))
      by (pose proof (Opt q (nth_error_In _ _ Q));
          destruct (QuizQuestion.options q) as [|o os]; [congruence | reflexivity]);
    change (answerAll (S ?k)) with (ClickOption 0 :: ClickNext :: answerAll k);
    rewrite run_cons, (dispatch_click st q 0 _ A Q O), run_cons;
    rewrite (skipn_nth_error _ _ _ Q).
  - rewrite dispatch_finish by (simpl; auto; lia).
    replace (S (currentIndex st)) with (length questions) by lia.
    rewrite skipn_all. reflexivity.
  - rewrite dispatch_advance by (simpl; auto; lia).
    assert (I1 : invariant (answeredState st q (hd [] (QuizQuestion.options q))
                              true (timeLeft st))).
    { eapply transition_invariant; [exact I|]. eapply t_click; eassumption. }
    assert (I2 : invariant (shownNext timerSeconds
                              (answeredState st q (hd [] (QuizQuestion.options q))
                                 true (timeLeft st)))).
    { eapply transition_invariant; [exact I1|].
      apply t_advance; simpl; auto; lia. }
    destruct (shownNext_cells (answeredState st q (hd [] (QuizQuestion.options q))
                                 true (timeLeft st)))
      as (CI & _ & CA & CL & _).
    rewrite IH; auto.
    + rewrite CI, CL. simpl. rewrite <- app_assoc. reflexivity.
    + rewrite CI. simpl. lia.
Qed.

(** X12.  A quiz can always be finished: when every question has at
    least one option, clicking the first option and then Next, once per
    question, completes the session, and the list handed to [onComplete]
    holds, question by question, the first option as the selection and
    its comparison with the correct answer. *)
Theorem answering_every_question_completes :
  questions <> [] ->
  (forall q, In q questions -> QuizQuestion.options q <> []) ->
  session (answerAll (length questions)) = Completed (map firstAnswer questions).
Proof.
  intros N Opt.
  destruct (mount_running questions timerSeconds N) as [s M].
  unfold QuizGame.session. rewrite M.
  pose proof (mount_shownFirst s M) as ->.
  destruct (length questions) as [|m] eqn:L.
  - apply length_zero_iff_nil in L. congruence.
  - rewrite answer_all_run; auto.
    apply (mount_invariant questions timerSeconds). exact M.
Qed.

Lemma transition_extends (st st' : state) :
  transition st st' ->
  currentIndex st <= currentIndex st' /\
  exists more, answers st' = answers st ++ more.
Proof.
  intros T. destruct T as [s q idx o A Q O | s q T A L Q | s T L | s A L]; simpl.
  - split; [lia | eauto].
  - split; [lia | eauto].
  - split; [lia | exists []; rewrite app_nil_r; reflexivity].
  - destruct (shownNext_cells s) as (-> & _ & _ & -> & _).
    split; [lia | exists []; rewrite app_nil_r; reflexivity].
Qed.

Lemma run_extends (evs : list event) (st st' : state) :
  invariant st -> run evs (Running st) = Running st' ->
  currentIndex st <= currentIndex st' /\
  exists more, answers st' = answers st ++ more.
Proof.
  intros I. apply (run_induction
    (fun s => currentIndex st <= currentIndex s /\
              exists more, answers s = answers st ++ more)); auto.
  - intros s s' _ [L [more E]] T.
    destruct (transition_extends s s' T) as [L' [more' E']].
    split; [lia|]. exists (more ++ more'). rewrite E', E, app_assoc. reflexivity.
  - split; [lia | exists []; rewrite app_nil_r; reflexivity].
Qed.


End SessionSteps.

(* ------------------------------------------------------------------ *)
(** ** Sessions on concrete questions, continued *)







Lemma finish_label_completes_witness :
  QuizView.nextLabel threeQuestions afterTimeout = QuizView.NextQuestion
  /\ exists st', QuizGame.handleNext threeQuestions afterTimeout
                 = QuizGame.Running st' /\
                 QuizGame.currentIndex st' = 2.
Proof.
  assert (L : QuizView.nextLabel threeQuestions afterTimeout = QuizView.NextQuestion)
    by reflexivity.
  split; [exact L|].
  apply (finish_label_completes threeQuestions afterTimeout); [simpl; lia | exact L].
Defined.

Lemma answering_every_question_completes_witness :
  QuizGame.session threeQuestions (Some 10%Z) (answerAll 3)
  = QuizGame.Completed (map firstAnswer threeQuestions).
Proof.
  apply (answering_every_question_completes threeQuestions (Some 10%Z)).
  - discriminate.
  - intros q [<-|[<-|[<-|[]]]]; discriminate.
Defined.




(* ------------------------------------------------------------------ *)
(** ** Saving, deleting and reviewing *)


Lemma saveAll_snoc (sessions : list (jsstring * jsstring * list UserAnswer.t))
    (x : jsstring * jsstring * list UserAnswer.t) (st : App.state) :
  saveAll (sessions ++ [x]) st
  = App.handleQuizComplete (fst (fst x)) (snd (fst x)) (snd x) (saveAll sessions st).
Proof. unfold saveAll. rewrite fold_left_app. reflexivity. Qed.

(** X15.  The history is kept most recent first: after any number of
    completed sessions the identifiers of their records stand before
    the older ones, in the reverse of the order in which the sessions
    were completed, and the older records are all still there. *)
Theorem history_is_most_recent_first
    (sessions : list (jsstring * jsstring * list UserAnswer.t)) (st : App.state) :
  exists added,
    App.savedQuizzes (saveAll sessions st) = added ++ App.savedQuizzes st /\
    map SavedQuiz.id added = rev (map (fun x => fst (fst x)) sessions) /\
    map SavedQuiz.answers added = rev (map snd sessions).
Proof.
  induction sessions as [|x sessions IH] using rev_ind.
  - exists []. auto.
  - destruct IH as (added & E & I & A). rewrite saveAll_snoc.
    eexists (_ :: added). simpl. rewrite E. split; [reflexivity|].
    rewrite !map_app, !rev_app_distr. simpl. rewrite I, A. auto.
Qed.

Lemma filter_keeps_twice (a b : jsstring) (l : list SavedQuiz.t) :
  filter (App.keeps a) (filter (App.keeps b) l)
  = filter (App.keeps b) (filter (App.keeps a) l).
Proof.
  induction l as [|r l IH]; [reflexivity|]. simpl.
  destruct (App.keeps a r) eqn:A, (App.keeps b r) eqn:B; simpl;
    rewrite ?A, ?B, IH; reflexivity.
Qed.

Lemma filter_keeps_again (a : jsstring) (l : list SavedQuiz.t) :
  filter (App.keeps a) (filter (App.keeps a) l) = filter (App.keeps a) l.
Proof.
  induction l as [|r l IH]; [reflexivity|]. simpl.
  destruct (App.keeps a r) eqn:A; simpl; rewrite ?A, IH; reflexivity.
Qed.

(** X16.  After a deletion no record of the history carries the deleted
    identifier; deleting it a second time changes nothing, and two
    deletions give the same state in either order. *)
Theorem deletions_settle_and_commute (a b : jsstring) (st : App.state) :
  ~ In a (map SavedQuiz.id (App.savedQuizzes (App.handleDeleteQuiz a st)))
  /\ App.handleDeleteQuiz a (App.handleDeleteQuiz a st) = App.handleDeleteQuiz a st
  /\ App.handleDeleteQuiz a (App.handleDeleteQuiz b st)
     = App.handleDeleteQuiz b (App.handleDeleteQuiz a st).
Proof.
  split; [|split].
  - simpl. rewrite in_map_iff. intros (r & E & H).
    apply filter_In in H. destruct H as [_ K]. unfold App.keeps in K.
    rewrite <- E, jsstring_eqb_refl in K. discriminate.
  - unfold App.handleDeleteQuiz. simpl. rewrite filter_keeps_again. reflexivity.
  - unfold App.handleDeleteQuiz. simpl. rewrite filter_keeps_twice. reflexivity.
Qed.

(** X17.  Saving a session and then deleting its record gives back the
    history as it was, provided no older record carries the same
    identifier. *)
Theorem delete_undoes_save (now iso : jsstring) (answers : list UserAnswer.t)
    (st : App.state) :
  ~ In now (map SavedQuiz.id (App.savedQuizzes st)) ->
  App.savedQuizzes
    (App.handleDeleteQuiz now (App.handleQuizComplete now iso answers st))
  = App.savedQuizzes st.
Proof.
  intros H. simpl. unfold App.keeps at 1. simpl.
  rewrite jsstring_eqb_refl. simpl. apply filter_keeps_all. exact H.
Qed.

Lemma delete_undoes_save_witness :
  App.savedQuizzes
    (App.handleDeleteQuiz (lit "1700000000009")
       (App.handleQuizComplete (lit "1700000000009") (lit "2023-11-14T22:13:29.000Z")
          threeAnswers quizOfThree))
  = App.savedQuizzes quizOfThree.
Proof.
  apply (delete_undoes_save (lit "1700000000009") (lit "2023-11-14T22:13:29.000Z")
           threeAnswers quizOfThree).
  vm_compute. intuition discriminate.
Defined.

(** X18.  Reviewing the record a session has just saved shows the very
    questions and answers of the results screen, the only difference
    being the review flag; the history is not touched and nothing is
    scored again.  Going back to the dashboard from a review keeps the
    history and clears the questions, the answers and the flag. *)
Theorem review_reproduces_results (now iso : jsstring)
    (answers : list UserAnswer.t) (st : App.state) :
  exists saved,
    App.savedQuizzes (App.handleQuizComplete now iso answers st)
    = saved :: App.savedQuizzes st /\
    App.handleReviewQuiz saved (App.handleQuizComplete now iso answers st)
    = App.mkState RESULTS (App.questions st) answers (App.currentTopic st)
        (App.timerSeconds st) (App.errorToast st)
        (saved :: App.savedQuizzes st) (Some saved) /\
    App.handleBackToDashboard
      (App.handleReviewQuiz saved (App.handleQuizComplete now iso answers st))
    = App.mkState DASHBOARD [] [] (App.currentTopic st) (App.timerSeconds st) None
        (saved :: App.savedQuizzes st) None.
Proof.
  eexists. split; [reflexivity|]. split; reflexivity.
Qed.

(* ------------------------------------------------------------------ *)
(** ** The theme *)

Lemma toggleTheme_twice (st : Theme.state) :
  Theme.toggleTheme (Theme.toggleTheme st) = st.
Proof. destruct st as [[] []]; reflexivity. Qed.

(** X19.  The [isDarkMode] cell and the class of the document never part:
    after any number of toggles, starting from the cell's initializer,
    both are the initial class flipped once per toggle, so two toggles
    restore the theme. *)
Theorem theme_cell_follows_document (documentDark : bool) (n : nat) :
  let st := Nat.iter n Theme.toggleTheme (Theme.initial documentDark) in
  Theme.isDarkMode st = Theme.documentDark st
  /\ Theme.documentDark st = (if Nat.even n then documentDark else negb documentDark)
  /\ Theme.toggleTheme (Theme.toggleTheme st) = st.
Proof.
  cbv zeta. split; [|split; [|apply toggleTheme_twice]].
  - induction n as [|n IH]; [reflexivity|].
    change (Nat.iter (S n) Theme.toggleTheme (Theme.initial documentDark))
      with (Theme.toggleTheme (Nat.iter n Theme.toggleTheme (Theme.initial documentDark))).
    destruct (Nat.iter n Theme.toggleTheme (Theme.initial documentDark)) as [c d].
    simpl in *. subst c. destruct d; reflexivity.
  - induction n as [|n IH]; [reflexivity|].
    rewrite Nat.even_succ, <- Nat.negb_even.
    change (Nat.iter (S n) Theme.toggleTheme (Theme.initial documentDark))
      with (Theme.toggleTheme (Nat.iter n Theme.toggleTheme (Theme.initial documentDark))).
    destruct (Nat.iter n Theme.toggleTheme (Theme.initial documentDark)) as [c d].
    simpl in *. rewrite IH. destruct (Nat.even n), documentDark; reflexivity.
Qed.
